(** * socket-server: the room relay of the collaborative editor

    A shallow embedding of the Socket.IO event handlers of the relay
    server (the TypeScript entry point registering the [join-room],
    [check-room], fan-out, cursor and [disconnect] handlers) and of the
    three process-wide maps they maintain:

    - [activeRooms]  : room id -> set of socket ids,
    - [socketToRoom] : socket id -> room id,
    - [roomCursors]  : room id -> (socket id -> cursor object).

    The handlers are state transformers that also return the list of
    outbound events they emit. *)

From stdpp Require Import gmap strings list fin_maps.
From Stdlib Require Import ZArith.

#[local] Set Warnings "-clear-no-such-hyp".

Open Scope string_scope.
Open Scope Z_scope.

(** ** Payload values

    Payload fields are relayed verbatim; the server never inspects
    them.  They are modelled as JSON-like trees. *)

#[local] Unset Elimination Schemes.
Inductive Value : Type :=
| VStr (s : string)
| VBool (b : bool)
| VNum (n : Z)
| VObj (fields : list (string * Value)).
#[local] Set Elimination Schemes.

(** ** Cursor objects

    The values of the inner maps of [roomCursors] are plain objects
    built by object literals; a key the literal does not mention is
    absent ([None]). *)

Record Cursor : Type := mkCursor {
  position  : option Value;
  selection : option Value;
  isVisible : option bool;
  userId    : option string;
  userInfo  : option Value;
  timestamp : option Z
}.

Definition key_if_set {A : Type} (key : string) (field : option A) : list string :=
  match field with
  | Some _ => [key]
  | None => []
  end.

(** The keys present on a cursor object. *)
Definition cursor_keys (c : Cursor) : list string :=
  key_if_set "position" (position c) ++
  key_if_set "selection" (selection c) ++
  key_if_set "isVisible" (isVisible c) ++
  key_if_set "userId" (userId c) ++
  key_if_set "userInfo" (userInfo c) ++
  key_if_set "timestamp" (timestamp c).

(** ** Server state

    The three module-level maps, together with the part of the
    Socket.IO transport the handlers talk to: the adapter's room table
    ([io.sockets.adapter.rooms], written by [socket.join] and
    [socket.leave], read by [socket.to(room)]), the set of currently
    connected sockets, and the set of socket ids handed out so far
    (Socket.IO never hands out the same id twice). *)

Record Server : Type := mkServer {
  activeRooms  : gmap string (gset string);
  socketToRoom : gmap string string;
  roomCursors  : gmap string (gmap string Cursor);
  adapterRooms : gmap string (gset string);
  sockets      : gset string;
  issued       : gset string
}.

Definition initial : Server :=
  mkServer ∅ ∅ ∅ ∅ ∅ ∅.

Definition set_activeRooms (f : gmap string (gset string) → gmap string (gset string))
    (st : Server) : Server :=
  mkServer (f (activeRooms st)) (socketToRoom st) (roomCursors st)
           (adapterRooms st) (sockets st) (issued st).

Definition set_socketToRoom (f : gmap string string → gmap string string)
    (st : Server) : Server :=
  mkServer (activeRooms st) (f (socketToRoom st)) (roomCursors st)
           (adapterRooms st) (sockets st) (issued st).

Definition set_roomCursors
    (f : gmap string (gmap string Cursor) → gmap string (gmap string Cursor))
    (st : Server) : Server :=
  mkServer (activeRooms st) (socketToRoom st) (f (roomCursors st))
           (adapterRooms st) (sockets st) (issued st).

Definition set_adapterRooms (f : gmap string (gset string) → gmap string (gset string))
    (st : Server) : Server :=
  mkServer (activeRooms st) (socketToRoom st) (roomCursors st)
           (f (adapterRooms st)) (sockets st) (issued st).

(** Member set of a room in the membership table; a room that is not a
    key has no members. *)
Definition members (st : Server) (room : string) : gset string :=
  default ∅ (activeRooms st !! room).

(** Sockets currently in a Socket.IO room. *)
Definition adapterRoom (st : Server) (room : string) : gset string :=
  default ∅ (adapterRooms st !! room).

(** The cursor object stored for a (room, socket) pair, if any. *)
Definition cursor_of (st : Server) (room sock : string) : option Cursor :=
  roomCursors st !! room ≫= λ roomCursorMap, roomCursorMap !! sock.

(** ** The transport primitives used by the handlers *)

(** An outbound event together with the sockets it is delivered to. *)
Record Emit : Type := mkEmit {
  recipients : gset string;
  event      : string;
  payload    : Value
}.

(** [socket.emit(ev, data)]: to the socket itself. *)
Definition socket_emit (sock ev : string) (data : Value) : Emit :=
  mkEmit {[sock]} ev data.

(** [socket.to(room).emit(ev, data)]: a broadcast with the rooms
    [{room}] and the excluded rooms [{socket.id}].  It goes to every
    socket of the Socket.IO room [room] that is not in the Socket.IO
    room named by the emitting socket's id.  That room holds the
    emitting socket unless it has left it, and may hold others that
    joined it. *)
Definition socket_to_emit (st : Server) (sock room ev : string) (data : Value) : Emit :=
  mkEmit (adapterRoom st room ∖ adapterRoom st sock) ev data.

(** Removal of a socket from one adapter room; the adapter drops a room
    that becomes empty. *)
Definition drop_from (sock : string) (s : gset string) : option (gset string) :=
  let s' := s ∖ {[sock]} in
  if decide (s' = ∅) then None else Some s'.

(** [socket.join(room)]. *)
Definition socket_join (sock room : string) (st : Server) : Server :=
  set_adapterRooms (λ rooms, <[room := {[sock]} ∪ default ∅ (rooms !! room)]> rooms) st.

(** [socket.leave(room)]. *)
Definition socket_leave (sock room : string) (st : Server) : Server :=
  set_adapterRooms
    (λ rooms, match rooms !! room with
              | Some s => match drop_from sock s with
                          | Some s' => <[room := s']> rooms
                          | None => delete room rooms
                          end
              | None => rooms
              end) st.

(** What Socket.IO does to its own tables when a socket closes, before
    the [disconnect] listeners run: the socket leaves every room and is
    no longer connected. *)
Definition transport_close (sock : string) (st : Server) : Server :=
  mkServer (activeRooms st) (socketToRoom st) (roomCursors st)
           (omap (drop_from sock) (adapterRooms st))
           (sockets st ∖ {[sock]}) (issued st).

(** What Socket.IO does when a socket connects: the id is fresh, the
    socket is connected and joins the room named by its own id. *)
Definition transport_open (sock : string) (st : Server) : Server :=
  socket_join sock sock
    (mkServer (activeRooms st) (socketToRoom st) (roomCursors st)
              (adapterRooms st) ({[sock]} ∪ sockets st) ({[sock]} ∪ issued st)).

(** JavaScript truthiness of a [string | undefined]: [undefined] and
    the empty string are falsy. *)
Definition truthy (v : option string) : bool :=
  match v with
  | Some s => negb (String.eqb s "")
  | None => false
  end.

(** ** Handlers *)

(** The block shared by the [join-room] and [disconnect] handlers:
<<
      const roomParticipants = activeRooms.get(room);
      if (roomParticipants) {
        roomParticipants.delete(socket.id);
        if (roomParticipants.size === 0) {
          activeRooms.delete(room);
          roomCursors.delete(room);
        }
      }
>>
    [roomParticipants] is the set object stored in the map, so the
    deletion is visible through [activeRooms]. *)
Definition remove_participant (sock room : string) (st : Server) : Server :=
  match activeRooms st !! room with
  | Some roomParticipants =>
      let roomParticipants' := roomParticipants ∖ {[sock]} in
      let st := set_activeRooms (<[room := roomParticipants']>) st in
      if decide (size roomParticipants' = 0%nat)
      then set_roomCursors (delete room) (set_activeRooms (delete room) st)
      else st
  | None => st
  end.

(** The part of the [join-room] handler under the comment
    "Leave previous room if any". *)
Definition leave_previous_room (sock : string) (st : Server) : Server :=
  let previousRoom := socketToRoom st !! sock in
  match previousRoom with
  | Some prev =>
      if truthy previousRoom
      then remove_participant sock prev (socket_leave sock prev st)
      else st
  | None => st
  end.

(** The part of the [join-room] handler under the comments "Join new
    room" and "Initialize cursor tracking for this room". *)
Definition join_new_room (sock roomId : string) (st : Server) : Server :=
  let st := socket_join sock roomId st in
  let st := set_socketToRoom (<[sock := roomId]>) st in
  let st :=
    if bool_decide (is_Some (activeRooms st !! roomId)) then st
    else set_activeRooms (<[roomId := ∅]>) st in
  let st := set_activeRooms (<[roomId := {[sock]} ∪ members st roomId]>) st in
  if bool_decide (is_Some (roomCursors st !! roomId)) then st
  else set_roomCursors (<[roomId := ∅]>) st.

(** [socket.on("join-room", ({ roomId, userId, isCreating }) => ...)] *)
Definition on_join_room (sock roomId uid : string) (isCreating : bool)
    (st : Server) : Server * list Emit :=
  let roomExists := bool_decide (is_Some (activeRooms st !! roomId)) in
  if negb roomExists && negb isCreating then
    (st, [socket_emit sock "room-not-available" (VStr "Room does not exist")])
  else
    let st := join_new_room sock roomId (leave_previous_room sock st) in
    (st, [ socket_emit sock "room-joined" (VObj [("roomId", VStr roomId)]);
           socket_to_emit st sock roomId "user-joined"
             (VObj [("userId", VStr uid); ("socketId", VStr sock)]) ]).

(** [socket.on("check-room", ({ roomId }) => ...)] *)
Definition on_check_room (sock roomId : string) (st : Server) : Server * list Emit :=
  if bool_decide (is_Some (activeRooms st !! roomId))
  then (st, [socket_emit sock "room-exists" (VObj [("roomId", VStr roomId)])])
  else (st, [socket_emit sock "room-not-exists" (VObj [("roomId", VStr roomId)])]).

(** [socket.on("cursor-move", ...)] *)
Definition on_cursor_move (sock : string) (now : Z) (roomId : string)
    (pos : Value) (uid : string) (info : Value) (st : Server) : Server * list Emit :=
  match roomCursors st !! roomId with
  | Some roomCursorMap =>
      let c := mkCursor (Some pos) None None (Some uid) (Some info) (Some now) in
      let st := set_roomCursors (<[roomId := <[sock := c]> roomCursorMap]>) st in
      (st, [socket_to_emit st sock roomId "cursor-move"
              (VObj [("socketId", VStr sock); ("position", pos);
                     ("userId", VStr uid); ("userInfo", info)])])
  | None => (st, [])
  end.

(** [socket.on("cursor-selection", ...)] *)
Definition on_cursor_selection (sock : string) (now : Z) (roomId : string)
    (sel : Value) (uid : string) (info : Value) (st : Server) : Server * list Emit :=
  match roomCursors st !! roomId with
  | Some roomCursorMap =>
      let st :=
        match roomCursorMap !! sock with
        | Some currentCursor =>
            let c := mkCursor (position currentCursor) (Some sel)
                       (isVisible currentCursor) (userId currentCursor)
                       (userInfo currentCursor) (Some now) in
            set_roomCursors (<[roomId := <[sock := c]> roomCursorMap]>) st
        | None => st
        end in
      (st, [socket_to_emit st sock roomId "cursor-selection"
              (VObj [("socketId", VStr sock); ("selection", sel);
                     ("userId", VStr uid); ("userInfo", info)])])
  | None => (st, [])
  end.

(** [socket.on("cursor-visibility", ...)] *)
Definition on_cursor_visibility (sock : string) (now : Z) (roomId : string)
    (visible : bool) (uid : string) (info : Value) (st : Server) : Server * list Emit :=
  match roomCursors st !! roomId with
  | Some roomCursorMap =>
      let st :=
        if visible then
          let c := mkCursor None None (Some true) (Some uid) (Some info) (Some now) in
          set_roomCursors (<[roomId := <[sock := c]> roomCursorMap]>) st
        else
          set_roomCursors (<[roomId := delete sock roomCursorMap]>) st in
      (st, [socket_to_emit st sock roomId "cursor-visibility"
              (VObj [("socketId", VStr sock); ("isVisible", VBool visible);
                     ("userId", VStr uid); ("userInfo", info)])])
  | None => (st, [])
  end.

(** [socket.on("disconnect", () => ...)] *)
Definition on_disconnect (sock : string) (st : Server) : Server * list Emit :=
  let roomId := socketToRoom st !! sock in
  match roomId with
  | Some room =>
      if truthy roomId then
        (* Remove from room tracking *)
        let st := remove_participant sock room st in
        (* Remove cursor from room *)
        let st :=
          match roomCursors st !! room with
          | Some roomCursorMap =>
              set_roomCursors (<[room := delete sock roomCursorMap]>) st
          | None => st
          end in
        (* Notify other users *)
        let out := [socket_to_emit st sock room "user-left"
                      (VObj [("socketId", VStr sock)])] in
        (set_socketToRoom (delete sock) st, out)
      else (st, [])
  | None => (st, [])
  end.

(** The fan-out handlers without state: [socket.to(roomId).emit(ev, data)]. *)
Definition relay (sock roomId ev : string) (data : Value) (st : Server)
    : Server * list Emit :=
  (st, [socket_to_emit st sock roomId ev data]).

(** ** Inbound messages, with the fields of the source's interfaces *)

Inductive Msg : Type :=
| JoinRoom (roomId uid : string) (isCreating : bool)
| CheckRoom (roomId : string)
| CodeChanged (roomId code : string)
| InputChanged (roomId input : string)
| ChangeLanguage (roomId language : string)
| RunCode (roomId output language input code : string)
| ExecutionStatus (roomId : string) (isRunning : bool)
| CursorMove (roomId : string) (pos : Value) (uid : string) (info : Value)
| CursorSelection (roomId : string) (sel : Value) (uid : string) (info : Value)
| CursorVisibility (roomId : string) (visible : bool) (uid : string) (info : Value)
| CallOffer (roomId : string) (offer : Value) (fromUserId : string)
| CallAnswer (roomId : string) (answer : Value) (fromUserId : string)
| IceCandidate (roomId : string) (candidate : Value) (fromUserId : string)
| CallRequest (roomId fromUserId : string)
| CallAccept (roomId fromUserId : string)
| CallReject (roomId fromUserId : string)
| CallEnd (roomId fromUserId : string)
| UserReadyForCall (roomId fromUserId : string).

(** The signalling payloads: the original fields plus [fromSocketId]. *)
Definition signal (sock : string) (fields : list (string * Value)) (fromUserId : string)
    : Value :=
  VObj (fields ++ [("fromUserId", VStr fromUserId); ("fromSocketId", VStr sock)]).

(** Dispatch of one inbound message of socket [sock] to its listener;
    [now] is the value [Date.now()] returns during the listener. *)
Definition handle (sock : string) (now : Z) (m : Msg) (st : Server)
    : Server * list Emit :=
  match m with
  | JoinRoom roomId uid isCreating => on_join_room sock roomId uid isCreating st
  | CheckRoom roomId => on_check_room sock roomId st
  | CodeChanged roomId code =>
      relay sock roomId "code-changed" (VObj [("code", VStr code)]) st
  | InputChanged roomId input =>
      relay sock roomId "input-changed" (VObj [("input", VStr input)]) st
  | ChangeLanguage roomId language =>
      relay sock roomId "language-changed" (VStr language) st
  | RunCode roomId output language input code =>
      relay sock roomId "code-run"
        (VObj [("output", VStr output); ("language", VStr language);
               ("input", VStr input); ("code", VStr code)]) st
  | ExecutionStatus roomId isRunning =>
      relay sock roomId "execution-status" (VObj [("isRunning", VBool isRunning)]) st
  | CursorMove roomId pos uid info => on_cursor_move sock now roomId pos uid info st
  | CursorSelection roomId sel uid info =>
      on_cursor_selection sock now roomId sel uid info st
  | CursorVisibility roomId visible uid info =>
      on_cursor_visibility sock now roomId visible uid info st
  | CallOffer roomId offer fromUserId =>
      relay sock roomId "call-offer" (signal sock [("offer", offer)] fromUserId) st
  | CallAnswer roomId answer fromUserId =>
      relay sock roomId "call-answer" (signal sock [("answer", answer)] fromUserId) st
  | IceCandidate roomId candidate fromUserId =>
      relay sock roomId "ice-candidate"
        (signal sock [("candidate", candidate)] fromUserId) st
  | CallRequest roomId fromUserId =>
      relay sock roomId "call-request" (signal sock [] fromUserId) st
  | CallAccept roomId fromUserId =>
      relay sock roomId "call-accept" (signal sock [] fromUserId) st
  | CallReject roomId fromUserId =>
      relay sock roomId "call-reject" (signal sock [] fromUserId) st
  | CallEnd roomId fromUserId =>
      relay sock roomId "call-end" (signal sock [] fromUserId) st
  | UserReadyForCall roomId fromUserId =>
      relay sock roomId "user-ready-for-call" (signal sock [] fromUserId) st
  end.

(** ** Events of the event loop

    Listeners are registered per socket inside the [connection]
    callback, so a message or a close is dispatched only for a connected
    socket; every listener runs to completion before the next event. *)

Inductive Event : Type :=
| Connect (sock : string)
| Message (sock : string) (now : Z) (m : Msg)
| Disconnect (sock : string).

Definition step (st : Server) (e : Event) : Server * list Emit :=
  match e with
  | Connect sock =>
      if decide (sock ∈ issued st) then (st, []) else (transport_open sock st, [])
  | Message sock now m =>
      if decide (sock ∈ sockets st) then handle sock now m st else (st, [])
  | Disconnect sock =>
      if decide (sock ∈ sockets st) then on_disconnect sock (transport_close sock st)
      else (st, [])
  end.

(** The state after a sequence of events. *)
Fixpoint run (st : Server) (evs : list Event) : Server :=
  match evs with
  | [] => st
  | e :: evs => run (step st e).1 evs
  end.

(** ** Vocabulary of the properties *)

(** The event name a listener is registered under ([socket.on(name, ...)]). *)
Definition inbound_name (m : Msg) : string :=
  match m with
  | JoinRoom _ _ _ => "join-room"
  | CheckRoom _ => "check-room"
  | CodeChanged _ _ => "code-changed"
  | InputChanged _ _ => "input-changed"
  | ChangeLanguage _ _ => "change-language"
  | RunCode _ _ _ _ _ => "run-code"
  | ExecutionStatus _ _ => "execution-status"
  | CursorMove _ _ _ _ => "cursor-move"
  | CursorSelection _ _ _ _ => "cursor-selection"
  | CursorVisibility _ _ _ _ => "cursor-visibility"
  | CallOffer _ _ _ => "call-offer"
  | CallAnswer _ _ _ => "call-answer"
  | IceCandidate _ _ _ => "ice-candidate"
  | CallRequest _ _ => "call-request"
  | CallAccept _ _ => "call-accept"
  | CallReject _ _ => "call-reject"
  | CallEnd _ _ => "call-end"
  | UserReadyForCall _ _ => "user-ready-for-call"
  end.

(** The room field of a fan-out message; [join-room] and [check-room]
    are not fan-out events. *)
Definition fanout_room (m : Msg) : option string :=
  match m with
  | JoinRoom _ _ _ | CheckRoom _ => None
  | CodeChanged r _ | InputChanged r _ | ChangeLanguage r _
  | RunCode r _ _ _ _ | ExecutionStatus r _
  | CursorMove r _ _ _ | CursorSelection r _ _ _ | CursorVisibility r _ _ _
  | CallOffer r _ _ | CallAnswer r _ _ | IceCandidate r _ _
  | CallRequest r _ | CallAccept r _ | CallReject r _ | CallEnd r _
  | UserReadyForCall r _ => Some r
  end.

(** The renaming on the wire, as the specification words it:
    [change-language] becomes [language-changed], [run-code] becomes
    [code-run], every other name is kept. *)
Definition renamed (name : string) : string :=
  if String.eqb name "change-language" then "language-changed"
  else if String.eqb name "run-code" then "code-run"
  else name.

(** The registry entry of a socket when it is truthy: the room the
    [join-room] and [disconnect] handlers clean up. *)
Definition tracked_room (sock : string) (st : Server) : option string :=
  if truthy (socketToRoom st !! sock) then socketToRoom st !! sock else None.

(** What one socket receives out of a list of emitted events. *)
Definition delivered (sock : string) (out : list Emit) : list (string * Value) :=
  (λ em, (event em, payload em)) <$> filter (λ em, sock ∈ recipients em) out.

(** Room ids named by the [join-room] requests of a history. *)
Definition joined_room (e : Event) : option string :=
  match e with
  | Message _ _ (JoinRoom roomId _ _) => Some roomId
  | _ => None
  end.

(** The structural invariant of the reachable states. *)
Record consistent (st : Server) : Prop := mkConsistent {
  (* a room that is a key has a member *)
  rooms_nonempty : ∀ room s, activeRooms st !! room = Some s → s ≠ ∅;
  (* the cursor maps are those of the rooms that are keys *)
  cursors_follow : ∀ room, is_Some (roomCursors st !! room) ↔ is_Some (activeRooms st !! room);
  (* a connected member is in the Socket.IO room of the same name *)
  live_members : ∀ sock room, sock ∈ sockets st → sock ∈ members st room →
                              sock ∈ adapterRoom st room;
  (* only ids Socket.IO handed out are recorded *)
  members_issued : ∀ sock room, sock ∈ members st room → sock ∈ issued st;
  sockets_issued : sockets st ⊆ issued st
}.

(** Agreement of the membership table with the registry. *)
Definition registry_agrees (st : Server) : Prop :=
  (∀ sock room, sock ∈ members st room ↔ socketToRoom st !! sock = Some room) ∧
  (∀ sock, socketToRoom st !! sock ≠ Some "").

(** Histories in which no [join-room] request names the empty room id. *)
Definition named_rooms_only (evs : list Event) : Prop :=
  Forall (λ e, joined_room e ≠ Some "") evs.

(** ** The room status endpoint

    [app.get("/api/rooms/:roomId", ...)] reads [activeRooms] and the
    adapter's room table and answers with a JSON object. *)

(** [s && s.size > 0] for [s] a set or [undefined]: a set object is
    truthy, so the value is the comparison; [undefined] stays
    [undefined] ([None]). *)
Definition and_size_positive (s : option (gset string)) : option bool :=
  (λ s, bool_decide (0 < size s)%nat) <$> s.

(** [l || r] for operands that are [undefined] or booleans. *)
Definition js_or (l r : option bool) : option bool :=
  match l with
  | Some true => Some true
  | _ => r
  end.

(** The object handed to [res.json].  [status_exists] is [None] when
    the expression evaluates to [undefined], in which case the key is
    left out of the JSON text.  The two arrays are kept as the sets of
    their elements: a [Map] lists its keys in insertion order, which the
    maps of this development do not record. *)
Record RoomStatus : Type := mkRoomStatus {
  status_roomId : string;
  status_exists : option bool;
  status_participantCount : nat;
  status_activeRooms : gset string;
  status_socketRooms : gset string
}.

Definition room_status (roomId : string) (st : Server) : RoomStatus :=
  let roomParticipants := activeRooms st !! roomId in
  let socketRoom := adapterRooms st !! roomId in
  mkRoomStatus roomId
    (js_or (and_size_positive roomParticipants) (and_size_positive socketRoom))
    (match roomParticipants with
     | Some roomParticipants => size roomParticipants
     | None => match socketRoom with
               | Some socketRoom => size socketRoom
               | None => 0%nat
               end
     end)
    (dom (activeRooms st))
    (dom (adapterRooms st)).

(** ** More vocabulary *)

(** The socket an event belongs to. *)
Definition actor (e : Event) : string :=
  match e with
  | Connect sock | Message sock _ _ | Disconnect sock => sock
  end.

(** The two shapes of the object literals stored in a cursor map:
    [{position, userId, userInfo, timestamp}] and
    [{isVisible: true, userId, userInfo, timestamp}], each possibly with
    a [selection] added later. *)
Definition cursor_shape (c : Cursor) : bool :=
  match position c, isVisible c, userId c, userInfo c, timestamp c with
  | Some _, None, Some _, Some _, Some _ => true
  | None, Some true, Some _, Some _, Some _ => true
  | _, _, _, _, _ => false
  end.

(** ** The first server ([src/index.ts])

    The entry point with three listeners and no tables of its own: the
    only state is Socket.IO's.  [join-room] joins without leaving
    anything, [send-message] goes through [socket.to(roomId)],
    [change-language] goes through [io.to(roomId)], and the [disconnect]
    listener only logs. *)

Module Basic.

Inductive Msg : Type :=
| JoinRoom (roomId uid : string)
| SendMessage (roomId message : string)
| ChangeLanguage (roomId language : string).

(** [io.to(room).emit(ev, data)]: to every socket in the room, the
    one whose listener is running included. *)
Definition io_to_emit (st : Server) (room ev : string) (data : Value) : Emit :=
  mkEmit (adapterRoom st room) ev data.

Definition handle (sock : string) (m : Msg) (st : Server) : Server * list Emit :=
  match m with
  | JoinRoom roomId _ => (socket_join sock roomId st, [])
  | SendMessage roomId message =>
      (st, [socket_to_emit st sock roomId "receive-message" (VStr message)])
  | ChangeLanguage roomId language =>
      (st, [io_to_emit st roomId "language-changed" (VStr language)])
  end.

Inductive Event : Type :=
| Connect (sock : string)
| Message (sock : string) (m : Msg)
| Disconnect (sock : string).

Definition step (st : Server) (e : Event) : Server * list Emit :=
  match e with
  | Connect sock =>
      if decide (sock ∈ issued st) then (st, []) else (transport_open sock st, [])
  | Message sock m =>
      if decide (sock ∈ sockets st) then handle sock m st else (st, [])
  | Disconnect sock =>
      if decide (sock ∈ sockets st) then (transport_close sock st, []) else (st, [])
  end.

Fixpoint run (st : Server) (evs : list Event) : Server :=
  match evs with
  | [] => st
  | e :: evs => run (step st e).1 evs
  end.

End Basic.

(** ** Sample histories

    Sockets [X] and [Y] as in the end-to-end scenarios of the
    specification. *)

Definition pos_3_5 : Value := VObj [("line", VNum 3); ("ch", VNum 5)].

Definition sel_3_5 : Value := VObj [("anchor", pos_3_5); ("head", pos_3_5)].

Definition info_u2 : Value := VObj [("name", VStr "Ann"); ("color", VStr "#f00")].

(** [X] creates room [r1], [Y] joins it. *)
Definition two_in_r1 : list Event :=
  [ Connect "X"; Connect "Y";
    Message "X" 10 (JoinRoom "r1" "u1" true);
    Message "Y" 11 (JoinRoom "r1" "u2" false) ].

(** ... then [Y] reports a cursor position. *)
Definition cursor_in_r1 : list Event :=
  two_in_r1 ++ [ Message "Y" 12 (CursorMove "r1" pos_3_5 "u2" info_u2) ].

(** [X] and [Y] meet in the room whose id is the empty string. *)
Definition two_in_unnamed : list Event :=
  [ Connect "X"; Connect "Y";
    Message "X" 10 (JoinRoom "" "u1" true);
    Message "Y" 11 (JoinRoom "" "u2" false) ].

(** [X] creates the room named by its own socket id, then creates
    [r2]: the "leave previous room" block makes it leave the Socket.IO
    room of its own id. *)
Definition left_own_id_room : list Event :=
  [ Connect "X";
    Message "X" 10 (JoinRoom "X" "u1" true);
    Message "X" 11 (JoinRoom "r2" "u1" true) ].

(** [X] creates the room named by its own socket id and [Y] joins it. *)
Definition two_in_id_room : list Event :=
  [ Connect "X"; Connect "Y";
    Message "X" 10 (JoinRoom "X" "u1" true);
    Message "Y" 11 (JoinRoom "X" "u2" false) ].

(** An event that keeps room ids and socket ids apart: sockets take
    their ids in [ids], [join-room] requests name rooms outside it. *)
Definition keeps_ids_apart (ids : gset string) (e : Event) : Prop :=
  match e with
  | Connect sock => sock ∈ ids
  | Message _ _ (JoinRoom roomId _ _) => roomId ∉ ids
  | _ => True
  end.

(** What holds of the states of a history that keeps ids apart: the
    Socket.IO room named by a socket id holds that socket, while it is
    connected, and nobody else. *)
Record ids_apart (ids : gset string) (st : Server) : Prop := mkIdsApart {
  connected_ids : sockets st ⊆ ids;
  id_room_owner : ∀ sock x, sock ∈ ids → x ∈ adapterRoom st sock → x = sock;
  id_room_joined : ∀ sock, sock ∈ sockets st → sock ∈ adapterRoom st sock;
  registry_apart : ∀ sock room, socketToRoom st !! sock = Some room → room ∉ ids
}.

(** * Properties *)

(** ** The transport primitives and the shared cleanup block *)

Lemma size_zero (s : gset string) : size s = 0%nat ↔ s = ∅.
Proof. rewrite size_empty_iff. by unfold_leibniz. Qed.

Lemma has_key {A} (o : option A) :
  bool_decide (is_Some o) = match o with Some _ => true | None => false end.
Proof.
  destruct o; [by apply bool_decide_eq_true; eauto|].
  apply bool_decide_eq_false. by intros [? ?].
Qed.

Lemma drop_from_default sock (o : option (gset string)) :
  default ∅ (o ≫= drop_from sock) = default ∅ o ∖ {[sock]}.
Proof.
  destruct o as [s|]; simpl; [|set_solver].
  unfold drop_from. destruct (decide (s ∖ {[sock]} = ∅)) as [Hs|Hs]; simpl; [by rewrite Hs|done].
Qed.

Lemma drop_from_nonempty sock (s s' : gset string) :
  drop_from sock s = Some s' → s' ≠ ∅.
Proof. unfold drop_from. case_decide; naive_solver. Qed.

Lemma adapterRoom_socket_join sock room st room' :
  adapterRoom (socket_join sock room st) room' =
  if decide (room' = room) then {[sock]} ∪ adapterRoom st room else adapterRoom st room'.
Proof.
  unfold adapterRoom, socket_join; simpl. case_decide as Hr.
  - subst. by rewrite lookup_insert_eq.
  - by rewrite lookup_insert_ne.
Qed.

Lemma adapterRooms_socket_leave sock room st :
  adapterRooms (socket_leave sock room st) =
  partial_alter (λ o, o ≫= drop_from sock) room (adapterRooms st).
Proof.
  unfold socket_leave; simpl. apply map_eq; intros room'.
  rewrite lookup_partial_alter.
  destruct (adapterRooms st !! room) as [s|] eqn:Hs; simpl.
  - destruct (drop_from sock s) eqn:Hd; case_decide; subst;
      rewrite ?lookup_insert_eq, ?lookup_delete_eq, ?lookup_insert_ne, ?lookup_delete_ne by done;
      by rewrite ?Hs.
  - case_decide; subst; by rewrite ?Hs.
Qed.

Lemma adapterRoom_socket_leave sock room st room' :
  adapterRoom (socket_leave sock room st) room' =
  if decide (room' = room) then adapterRoom st room ∖ {[sock]} else adapterRoom st room'.
Proof.
  unfold adapterRoom. rewrite adapterRooms_socket_leave, lookup_partial_alter.
  case_decide; case_decide; subst; try done. apply drop_from_default.
Qed.

Lemma adapterRoom_transport_close sock st room :
  adapterRoom (transport_close sock st) room = adapterRoom st room ∖ {[sock]}.
Proof.
  unfold adapterRoom, transport_close; simpl. rewrite lookup_omap.
  apply drop_from_default.
Qed.

Lemma activeRooms_remove_participant sock room st :
  activeRooms (remove_participant sock room st) =
  partial_alter (λ o, o ≫= drop_from sock) room (activeRooms st).
Proof.
  unfold remove_participant. apply map_eq; intros room'.
  rewrite lookup_partial_alter.
  destruct (activeRooms st !! room) as [s|] eqn:Hs; simpl.
  - unfold drop_from.
    destruct (decide (size (s ∖ {[sock]}) = 0%nat)) as [Hz|Hz]; simpl;
      rewrite size_zero in Hz.
    + rewrite (decide_True _ _ Hz).
      destruct (decide (room = room')) as [<-|Hr].
      * by rewrite lookup_delete_eq.
      * by rewrite lookup_delete_ne, lookup_insert_ne.
    + rewrite (decide_False _ _ Hz).
      destruct (decide (room = room')) as [<-|Hr].
      * by rewrite lookup_insert_eq.
      * by rewrite lookup_insert_ne.
  - destruct (decide (room = room')) as [<-|Hr]; by rewrite ?Hs.
Qed.

Lemma members_remove_participant sock room st room' :
  members (remove_participant sock room st) room' =
  if decide (room' = room) then members st room ∖ {[sock]} else members st room'.
Proof.
  unfold members. rewrite activeRooms_remove_participant, lookup_partial_alter.
  case_decide; case_decide; subst; try done. apply drop_from_default.
Qed.

Lemma roomCursors_remove_participant sock room st room' :
  roomCursors (remove_participant sock room st) !! room' =
  if decide (room' = room ∧ is_Some (activeRooms st !! room) ∧ members st room ∖ {[sock]} = ∅)
  then None else roomCursors st !! room'.
Proof.
  unfold remove_participant, members.
  destruct (activeRooms st !! room) as [s|] eqn:Hs; simpl.
  - case_decide as Hz; simpl.
    + apply size_zero in Hz. case_decide as Hd.
      * destruct Hd as [-> _]. by rewrite lookup_delete_eq.
      * rewrite lookup_delete_ne; [done|]. intros ->. naive_solver.
    + rewrite size_zero in Hz. rewrite decide_False; [done|]. naive_solver.
  - rewrite decide_False; [done|]. intros (_ & [? ?] & _); done.
Qed.

Lemma remove_participant_frame sock room st :
  socketToRoom (remove_participant sock room st) = socketToRoom st ∧
  adapterRooms (remove_participant sock room st) = adapterRooms st ∧
  sockets (remove_participant sock room st) = sockets st ∧
  issued (remove_participant sock room st) = issued st.
Proof.
  unfold remove_participant. destruct (activeRooms st !! room); [|done].
  simpl. by case_decide.
Qed.

(** ** The two halves of the [join-room] handler *)

Lemma tracked_room_Some sock st room :
  tracked_room sock st = Some room ↔ socketToRoom st !! sock = Some room ∧ room ≠ "".
Proof.
  unfold tracked_room, truthy.
  destruct (socketToRoom st !! sock) as [r|]; [|naive_solver].
  destruct (String.eqb_spec r ""); simpl; naive_solver.
Qed.

Lemma leave_previous_room_eq sock st :
  leave_previous_room sock st =
  match tracked_room sock st with
  | Some prev => remove_participant sock prev (socket_leave sock prev st)
  | None => st
  end.
Proof.
  unfold leave_previous_room, tracked_room.
  destruct (socketToRoom st !! sock); [|done]. by destruct (truthy _).
Qed.

Lemma leave_previous_room_frame sock st :
  socketToRoom (leave_previous_room sock st) = socketToRoom st ∧
  sockets (leave_previous_room sock st) = sockets st ∧
  issued (leave_previous_room sock st) = issued st.
Proof.
  rewrite leave_previous_room_eq. destruct (tracked_room sock st); [|done].
  by destruct (remove_participant_frame sock s (socket_leave sock s st)) as (-> & _ & -> & ->).
Qed.

Lemma members_leave_previous_room sock st room :
  members (leave_previous_room sock st) room =
  if decide (tracked_room sock st = Some room) then members st room ∖ {[sock]}
  else members st room.
Proof.
  rewrite leave_previous_room_eq. destruct (tracked_room sock st) as [prev|].
  - rewrite members_remove_participant. repeat case_decide; naive_solver.
  - by rewrite decide_False.
Qed.

Lemma adapterRoom_leave_previous_room sock st room :
  adapterRoom (leave_previous_room sock st) room =
  if decide (tracked_room sock st = Some room) then adapterRoom st room ∖ {[sock]}
  else adapterRoom st room.
Proof.
  rewrite leave_previous_room_eq. destruct (tracked_room sock st) as [prev|].
  - unfold adapterRoom at 1.
    destruct (remove_participant_frame sock prev (socket_leave sock prev st)) as (_ & -> & _).
    fold (adapterRoom (socket_leave sock prev st) room).
    rewrite adapterRoom_socket_leave. repeat case_decide; naive_solver.
  - by rewrite decide_False.
Qed.

Lemma activeRooms_join_new_room sock roomId st :
  activeRooms (join_new_room sock roomId st) =
  <[roomId := {[sock]} ∪ members st roomId]> (activeRooms st).
Proof.
  unfold join_new_room, members. simpl. rewrite !has_key.
  destruct (activeRooms st !! roomId) as [s|] eqn:Hs; simpl.
  - rewrite Hs. simpl. by destruct (roomCursors st !! roomId).
  - rewrite lookup_insert_eq. simpl.
    destruct (roomCursors st !! roomId); simpl; by rewrite insert_insert_eq.
Qed.

Lemma members_join_new_room sock roomId st room :
  members (join_new_room sock roomId st) room =
  if decide (room = roomId) then {[sock]} ∪ members st roomId else members st room.
Proof.
  unfold members at 1. rewrite activeRooms_join_new_room.
  case_decide; subst; by rewrite ?lookup_insert_eq, ?lookup_insert_ne.
Qed.

Lemma roomCursors_join_new_room sock roomId st :
  roomCursors (join_new_room sock roomId st) =
  <[roomId := default ∅ (roomCursors st !! roomId)]> (roomCursors st).
Proof.
  unfold join_new_room. simpl. rewrite !has_key.
  destruct (activeRooms st !! roomId); simpl;
    (destruct (roomCursors st !! roomId) eqn:Hm; simpl; [by rewrite insert_id|done]).
Qed.

Lemma join_new_room_frame sock roomId st :
  socketToRoom (join_new_room sock roomId st) = <[sock := roomId]> (socketToRoom st) ∧
  adapterRooms (join_new_room sock roomId st) = adapterRooms (socket_join sock roomId st) ∧
  sockets (join_new_room sock roomId st) = sockets st ∧
  issued (join_new_room sock roomId st) = issued st.
Proof.
  unfold join_new_room. simpl. rewrite !has_key.
  destruct (activeRooms st !! roomId); simpl;
    by destruct (roomCursors st !! roomId).
Qed.

Lemma adapterRoom_join_new_room sock roomId st room :
  adapterRoom (join_new_room sock roomId st) room =
  if decide (room = roomId) then {[sock]} ∪ adapterRoom st roomId else adapterRoom st room.
Proof.
  unfold adapterRoom at 1.
  destruct (join_new_room_frame sock roomId st) as (_ & -> & _).
  apply adapterRoom_socket_join.
Qed.

(** ** The structural invariant *)

Lemma consistent_initial : consistent initial.
Proof. split; unfold members, adapterRoom; simpl; try set_solver; by intros ?; rewrite !lookup_empty; try split; intros [? ?]. Qed.

Lemma consistent_set_cursor_map room m st :
  is_Some (roomCursors st !! room) →
  consistent st → consistent (set_roomCursors (<[room := m]>) st).
Proof.
  intros Hroom [H1 H2 H3 H4 H5]. split; try done.
  intros room'. simpl. rewrite <- H2.
  destruct (decide (room' = room)) as [->|Hne].
  - rewrite lookup_insert_eq. split; eauto.
  - by rewrite lookup_insert_ne.
Qed.

Lemma consistent_remove_participant sock room st :
  (∀ room s, activeRooms st !! room = Some s → s ≠ ∅) →
  (∀ room, is_Some (roomCursors st !! room) ↔ is_Some (activeRooms st !! room)) →
  (∀ sock' room', sock' ∈ sockets st → sock' ∈ members st room' →
                  ¬ (sock' = sock ∧ room' = room) → sock' ∈ adapterRoom st room') →
  (∀ sock room, sock ∈ members st room → sock ∈ issued st) →
  sockets st ⊆ issued st →
  consistent (remove_participant sock room st).
Proof.
  intros H1 H2 H3 H4 H5.
  destruct (remove_participant_frame sock room st) as (Hreg & Had & Hso & His).
  split.
  - intros room' s. rewrite activeRooms_remove_participant, lookup_partial_alter.
    case_decide; subst; [|by eauto].
    destruct (activeRooms st !! room'); simpl; [|done]. apply drop_from_nonempty.
  - intros room'. rewrite roomCursors_remove_participant.
    rewrite activeRooms_remove_participant, lookup_partial_alter. unfold members.
    destruct (decide (room = room')) as [<-|Hne].
    + destruct (activeRooms st !! room) as [s|] eqn:Hs; simpl.
      * unfold drop_from. destruct (decide (s ∖ {[sock]} = ∅)) as [He|He].
        -- rewrite decide_True by eauto. split; intros [? ?]; done.
        -- rewrite decide_False by naive_solver. rewrite H2, Hs. split; eauto.
      * rewrite decide_False by (intros (_ & [? ?] & _); done). by rewrite H2, Hs.
    + rewrite decide_False by naive_solver. apply H2.
  - intros sock' room'. rewrite Hso. unfold adapterRoom. rewrite Had.
    fold (adapterRoom st room'). rewrite members_remove_participant.
    case_decide; subst.
    + intros Hs [Hm Hne]%elem_of_difference. apply H3; try done.
      intros [-> _]. apply Hne. by apply elem_of_singleton.
    + intros Hs Hm. apply H3; try done. naive_solver.
  - intros sock' room'. rewrite His, members_remove_participant.
    case_decide; subst; [|by eauto]. intros [Hm Hne]%elem_of_difference. eauto.
  - by rewrite Hso, His.
Qed.

Lemma consistent_leave_previous_room sock st :
  consistent st → consistent (leave_previous_room sock st).
Proof.
  intros Hst. rewrite leave_previous_room_eq.
  destruct (tracked_room sock st) as [prev|]; [|done].
  destruct Hst as [H1 H2 H3 H4 H5].
  apply consistent_remove_participant; try done.
  intros sock' room' Hs Hm Hne. rewrite adapterRoom_socket_leave.
  case_decide; subst; [|by eauto].
  apply elem_of_difference. split; [by eauto|].
  intros ->%elem_of_singleton. by apply Hne.
Qed.

Lemma consistent_join_new_room sock roomId st :
  sock ∈ sockets st →
  consistent st → consistent (join_new_room sock roomId st).
Proof.
  intros Hsock [H1 H2 H3 H4 H5].
  destruct (join_new_room_frame sock roomId st) as (Hreg & Had & Hso & His).
  split.
  - intros room s. rewrite activeRooms_join_new_room.
    destruct (decide (room = roomId)) as [->|Hne].
    + rewrite lookup_insert_eq. intros [= <-]. set_solver.
    + rewrite lookup_insert_ne by done. eauto.
  - intros room. rewrite roomCursors_join_new_room, activeRooms_join_new_room.
    destruct (decide (room = roomId)) as [->|Hne].
    + rewrite !lookup_insert_eq. split; eauto.
    + rewrite !lookup_insert_ne by done. apply H2.
  - intros sock' room. rewrite Hso, members_join_new_room, adapterRoom_join_new_room.
    case_decide; subst; [|by eauto].
    intros Hs [->%elem_of_singleton|Hm]%elem_of_union; set_solver.
  - intros sock' room. rewrite His, members_join_new_room.
    case_decide; subst; [|by eauto].
    intros [->%elem_of_singleton|Hm]%elem_of_union; [set_solver|eauto].
  - by rewrite Hso, His.
Qed.

Lemma consistent_transport_close sock st :
  consistent st → consistent (transport_close sock st).
Proof.
  intros [H1 H2 H3 H4 H5]. split; try done.
  - intros sock' room. rewrite adapterRoom_transport_close. simpl.
    intros [Hs Hne]%elem_of_difference Hm. apply elem_of_difference. split; [|done].
    by apply H3.
  - simpl. set_solver.
Qed.

Lemma consistent_transport_open sock st :
  sock ∉ issued st →
  consistent st → consistent (transport_open sock st).
Proof.
  intros Hfresh [H1 H2 H3 H4 H5]. split; try done.
  - intros sock' room. unfold transport_open. rewrite adapterRoom_socket_join. simpl.
    intros [->%elem_of_singleton|Hs]%elem_of_union Hm.
    + exfalso. apply Hfresh. by eapply H4.
    + case_decide; subst; [apply elem_of_union_r|]; by apply H3.
  - intros sock' room Hm. simpl. apply elem_of_union_r. by eapply H4.
  - simpl. set_solver.
Qed.

Lemma consistent_set_socketToRoom f st :
  consistent st → consistent (set_socketToRoom f st).
Proof. by intros [H1 H2 H3 H4 H5]. Qed.

Lemma consistent_on_join_room sock roomId uid isCreating st :
  sock ∈ sockets st →
  consistent st → consistent (on_join_room sock roomId uid isCreating st).1.
Proof.
  intros Hsock Hst. unfold on_join_room.
  destruct (negb _ && negb _); simpl; [done|].
  apply consistent_join_new_room.
  - by destruct (leave_previous_room_frame sock st) as (_ & -> & _).
  - by apply consistent_leave_previous_room.
Qed.

Lemma consistent_on_cursor_move sock now roomId pos uid info st :
  consistent st → consistent (on_cursor_move sock now roomId pos uid info st).1.
Proof.
  intros Hst. unfold on_cursor_move.
  destruct (roomCursors st !! roomId) eqn:Hm; simpl; [|done].
  apply consistent_set_cursor_map; eauto.
Qed.

Lemma consistent_on_cursor_selection sock now roomId sel uid info st :
  consistent st → consistent (on_cursor_selection sock now roomId sel uid info st).1.
Proof.
  intros Hst. unfold on_cursor_selection.
  destruct (roomCursors st !! roomId) as [m|] eqn:Hm; simpl; [|done].
  destruct (m !! sock); [|done]. apply consistent_set_cursor_map; eauto.
Qed.

Lemma consistent_on_cursor_visibility sock now roomId visible uid info st :
  consistent st → consistent (on_cursor_visibility sock now roomId visible uid info st).1.
Proof.
  intros Hst. unfold on_cursor_visibility.
  destruct (roomCursors st !! roomId) eqn:Hm; simpl; [|done].
  destruct visible; apply consistent_set_cursor_map; eauto.
Qed.

Lemma consistent_on_disconnect sock st :
  consistent st → consistent (on_disconnect sock st).1.
Proof.
  intros Hst. unfold on_disconnect.
  destruct (socketToRoom st !! sock) as [room|]; [|done].
  destruct (truthy (Some room)); simpl; [|done].
  apply consistent_set_socketToRoom.
  assert (consistent (remove_participant sock room st)) as Hrp.
  { destruct Hst as [H1 H2 H3 H4 H5]. apply consistent_remove_participant; eauto. }
  destruct (roomCursors (remove_participant sock room st) !! room) eqn:Hm; [|done].
  apply consistent_set_cursor_map; eauto.
Qed.

Lemma consistent_handle sock now m st :
  sock ∈ sockets st →
  consistent st → consistent (handle sock now m st).1.
Proof.
  intros Hsock Hst. destruct m; simpl; try done;
    eauto using consistent_on_join_room, consistent_on_cursor_move,
      consistent_on_cursor_selection, consistent_on_cursor_visibility.
  unfold on_check_room. by case_bool_decide.
Qed.

Lemma consistent_step st e :
  consistent st → consistent (step st e).1.
Proof.
  intros Hst. destruct e as [sock|sock now m|sock]; simpl; case_decide; simpl; try done.
  - by apply consistent_transport_open.
  - by apply consistent_handle.
  - by apply consistent_on_disconnect, consistent_transport_close.
Qed.

Lemma consistent_run st evs :
  consistent st → consistent (run st evs).
Proof.
  revert st. induction evs as [|e evs IH]; intros st Hst; simpl; [done|].
  by apply IH, consistent_step.
Qed.

Lemma reachable_consistent evs : consistent (run initial evs).
Proof. apply consistent_run, consistent_initial. Qed.

(** ** The handlers, projection by projection *)

Lemma activeRooms_leave_previous_room sock st :
  activeRooms (leave_previous_room sock st) =
  match tracked_room sock st with
  | Some prev => partial_alter (λ o, o ≫= drop_from sock) prev (activeRooms st)
  | None => activeRooms st
  end.
Proof.
  rewrite leave_previous_room_eq. destruct (tracked_room sock st); [|done].
  by rewrite activeRooms_remove_participant.
Qed.

Lemma roomCursors_leave_previous_room sock st room :
  roomCursors (leave_previous_room sock st) !! room =
  if decide (tracked_room sock st = Some room ∧ is_Some (activeRooms st !! room) ∧
             members st room ∖ {[sock]} = ∅)
  then None else roomCursors st !! room.
Proof.
  rewrite leave_previous_room_eq. destruct (tracked_room sock st) as [prev|].
  - rewrite roomCursors_remove_participant. simpl.
    unfold members; simpl. fold (members st prev).
    repeat case_decide; naive_solver.
  - by rewrite decide_False by naive_solver.
Qed.

Lemma on_disconnect_untracked sock st :
  tracked_room sock st = None → on_disconnect sock st = (st, []).
Proof.
  unfold tracked_room, on_disconnect.
  destruct (socketToRoom st !! sock); [|done]. by destruct (truthy _).
Qed.

Lemma on_disconnect_tracked sock st room :
  tracked_room sock st = Some room →
  let st1 := remove_participant sock room st in
  let st' := (on_disconnect sock st).1 in
  activeRooms st' = activeRooms st1 ∧
  socketToRoom st' = delete sock (socketToRoom st) ∧
  roomCursors st' = match roomCursors st1 !! room with
                    | Some roomCursorMap => <[room := delete sock roomCursorMap]> (roomCursors st1)
                    | None => roomCursors st1
                    end ∧
  adapterRooms st' = adapterRooms st ∧
  (on_disconnect sock st).2 =
    [mkEmit (adapterRoom st room ∖ adapterRoom st sock) "user-left"
       (VObj [("socketId", VStr sock)])].
Proof.
  intros Htr. pose proof Htr as [Hreg Hne]%tracked_room_Some.
  unfold tracked_room in Htr. unfold on_disconnect. rewrite Hreg in *.
  destruct (truthy (Some room)); [|done]. simpl.
  destruct (remove_participant_frame sock room st) as (Hr & Ha & _).
  destruct (roomCursors (remove_participant sock room st) !! room); simpl;
    rewrite ?Hr, ?Ha, ?Hreg; unfold socket_to_emit, adapterRoom; simpl; by rewrite Ha.
Qed.

Lemma handle_activeRooms_frame sock now m st :
  joined_room (Message sock now m) = None →
  activeRooms (handle sock now m st).1 = activeRooms st ∧
  socketToRoom (handle sock now m st).1 = socketToRoom st ∧
  adapterRooms (handle sock now m st).1 = adapterRooms st.
Proof.
  destruct m; simpl; try done; intros _.
  - unfold on_check_room. by case_bool_decide.
  - unfold on_cursor_move. by destruct (roomCursors st !! roomId).
  - unfold on_cursor_selection. destruct (roomCursors st !! roomId) as [cm|]; [|done].
    by destruct (cm !! sock).
  - unfold on_cursor_visibility. destruct (roomCursors st !! roomId); [|done].
    by destruct visible.
Qed.

Lemma on_join_room_rejected sock roomId uid st :
  activeRooms st !! roomId = None →
  on_join_room sock roomId uid false st =
  (st, [mkEmit {[sock]} "room-not-available" (VStr "Room does not exist")]).
Proof. intros Hr. unfold on_join_room. by rewrite has_key, Hr. Qed.

Lemma on_join_room_accepted sock roomId uid isCreating st :
  is_Some (activeRooms st !! roomId) ∨ isCreating = true →
  on_join_room sock roomId uid isCreating st =
  let st' := join_new_room sock roomId (leave_previous_room sock st) in
  (st', [ mkEmit {[sock]} "room-joined" (VObj [("roomId", VStr roomId)]);
          mkEmit (adapterRoom st' roomId ∖ adapterRoom st' sock) "user-joined"
            (VObj [("userId", VStr uid); ("socketId", VStr sock)]) ]).
Proof.
  intros Hok. unfold on_join_room. rewrite has_key.
  destruct Hok as [[s Hs]| ->]; [by rewrite Hs|].
  by rewrite andb_false_r.
Qed.

Lemma on_join_room_cases (roomId : string) (isCreating : bool) st :
  (activeRooms st !! roomId = None ∧ isCreating = false) ∨
  (is_Some (activeRooms st !! roomId) ∨ isCreating = true).
Proof. destruct (activeRooms st !! roomId), isCreating; eauto. Qed.

(** ** Lifecycle of a room entry *)

Lemma lookup_drop_None sock prev room (rooms : gmap string (gset string)) :
  rooms !! room = None →
  partial_alter (λ o, o ≫= drop_from sock) prev rooms !! room = None.
Proof.
  intros Hr. rewrite lookup_partial_alter. case_decide; subst; by rewrite ?Hr.
Qed.

Lemma lookup_drop_deleted sock prev room (rooms : gmap string (gset string)) s :
  rooms !! room = Some s → s ≠ ∅ →
  partial_alter (λ o, o ≫= drop_from sock) prev rooms !! room = None →
  prev = room ∧ s = {[sock]}.
Proof.
  intros Hr Hs. rewrite lookup_partial_alter. case_decide; subst; rewrite Hr; [|done].
  simpl. unfold drop_from. case_decide as He; [|done]. intros _. split; [done|].
  apply set_eq. intros x. rewrite elem_of_singleton. split.
  - intros Hx. destruct (decide (x = sock)); [done|]. set_solver.
  - intros ->. apply dec_stable. intros Hn. apply Hs. set_solver.
Qed.

Lemma room_created st e room :
  consistent st →
  activeRooms st !! room = None →
  is_Some (activeRooms (step st e).1 !! room) →
  ∃ sock now uid, e = Message sock now (JoinRoom room uid true) ∧
    members (step st e).1 room = {[sock]} ∧
    roomCursors (step st e).1 !! room = Some ∅.
Proof.
  intros Hst Hnone [s Hs].
  assert (roomCursors st !! room = None) as Hcur.
  { apply eq_None_not_Some. rewrite (cursors_follow _ Hst), Hnone. by intros [? ?]. }
  destruct e as [sock|sock now m|sock]; simpl in *.
  - case_decide; simpl in Hs; congruence.
  - case_decide; simpl in Hs; [|congruence].
    destruct (joined_room (Message sock now m)) as [roomId|] eqn:Hj.
    + destruct m; try done. simpl in Hj. injection Hj as ->. simpl in *.
      destruct (on_join_room_cases roomId isCreating st) as [[Hn ->]|Hok].
      { rewrite on_join_room_rejected in Hs by done. simpl in Hs. congruence. }
      rewrite on_join_room_accepted in * by done. simpl in *.
      rewrite activeRooms_join_new_room in Hs.
      assert (activeRooms (leave_previous_room sock st) !! room = None) as Hl.
      { rewrite activeRooms_leave_previous_room.
        destruct (tracked_room sock st); [by apply lookup_drop_None|done]. }
      destruct (decide (room = roomId)) as [->|Hne];
        [|rewrite lookup_insert_ne in Hs by done; congruence].
      destruct Hok as [[? ?]| ->]; [congruence|].
      exists sock, now, uid. split; [done|]. split.
      * rewrite members_join_new_room, decide_True by done.
        unfold members. rewrite Hl. simpl. set_solver.
      * rewrite roomCursors_join_new_room, lookup_insert_eq.
        rewrite roomCursors_leave_previous_room. case_decide; by rewrite ?Hcur.
    + destruct (handle_activeRooms_frame sock now m st Hj) as (Ha & _).
      rewrite Ha in Hs. congruence.
  - case_decide; simpl in Hs; [|congruence].
    destruct (tracked_room sock (transport_close sock st)) as [prev|] eqn:Htr.
    + destruct (on_disconnect_tracked _ _ _ Htr) as (Ha & _). rewrite Ha in Hs.
      rewrite activeRooms_remove_participant in Hs. simpl in Hs.
      rewrite lookup_drop_None in Hs; done.
    + rewrite on_disconnect_untracked in Hs by done. simpl in Hs. congruence.
Qed.

Lemma room_deleted st e room :
  consistent st →
  is_Some (activeRooms st !! room) →
  activeRooms (step st e).1 !! room = None →
  ∃ sock, members st room = {[sock]} ∧
    roomCursors (step st e).1 !! room = None ∧
    (e = Disconnect sock ∨
     ∃ now roomId uid isCreating, e = Message sock now (JoinRoom roomId uid isCreating)).
Proof.
  intros Hst [s Hs] Hgone.
  assert (s ≠ ∅) as Hne by (by eapply rooms_nonempty).
  assert (members st room = s) as Hmem by (unfold members; by rewrite Hs).
  destruct e as [sock|sock now m|sock]; simpl in *.
  - case_decide; simpl in Hgone; congruence.
  - case_decide; simpl in Hgone; [|congruence].
    destruct (joined_room (Message sock now m)) as [roomId|] eqn:Hj.
    + destruct m; try done. simpl in Hj. injection Hj as ->. simpl in *.
      destruct (on_join_room_cases roomId isCreating st) as [[Hn ->]|Hok].
      { rewrite on_join_room_rejected in Hgone by done. simpl in Hgone. congruence. }
      rewrite on_join_room_accepted in * by done. simpl in *.
      rewrite activeRooms_join_new_room in Hgone.
      destruct (decide (room = roomId)) as [->|Hr];
        [by rewrite lookup_insert_eq in Hgone|].
      rewrite lookup_insert_ne in Hgone by done.
      rewrite activeRooms_leave_previous_room in Hgone.
      destruct (tracked_room sock st) as [prev|] eqn:Htr; [|congruence].
      destruct (lookup_drop_deleted _ _ _ _ _ Hs Hne Hgone) as [-> ->].
      exists sock. split; [done|]. split; [|right; eauto].
      rewrite roomCursors_join_new_room, lookup_insert_ne by done.
      rewrite roomCursors_leave_previous_room, decide_True; [done|].
      rewrite Htr, Hmem. split; [done|]. split; [eauto|set_solver].
    + destruct (handle_activeRooms_frame sock now m st Hj) as (Ha & _).
      rewrite Ha in Hgone. congruence.
  - case_decide; simpl in Hgone; [|congruence].
    destruct (tracked_room sock (transport_close sock st)) as [prev|] eqn:Htr.
    + destruct (on_disconnect_tracked _ _ _ Htr) as (Ha & _ & Hc & _).
      rewrite Ha in Hgone. rewrite activeRooms_remove_participant in Hgone.
      simpl in Hgone.
      destruct (lookup_drop_deleted _ _ _ _ _ Hs Hne Hgone) as [-> ->].
      exists sock. split; [done|]. split; [|by left].
      rewrite Hc.
      assert (roomCursors (remove_participant sock room (transport_close sock st)) !! room
              = None) as Hrc.
      { rewrite roomCursors_remove_participant, decide_True; [done|].
        unfold members. simpl. rewrite Hs. simpl. split; [done|]. split; [eauto|set_solver]. }
      by rewrite Hrc.
    + rewrite on_disconnect_untracked in Hgone by done. simpl in Hgone. congruence.
Qed.

(** X14: at every quiescent point (the state after any sequence of
    events, each handled to completion) a room id is a key of
    [activeRooms] exactly when its member set is non-empty, and it has a
    cursor map exactly when it is a key.  An event after which a room has
    become a key is a [join-room] request for it, which leaves the
    sender as the only member and an empty cursor map; an event after
    which a room is no longer a key is the disconnect or the
    [join-room] of its only member, and the cursor map of the room is
    gone after the same event. *)
Theorem room_key_iff_nonempty (evs : list Event) (e : Event) (room : string) :
  let st := run initial evs in
  let st' := (step st e).1 in
  (is_Some (activeRooms st !! room) ↔ members st room ≠ ∅) ∧
  (is_Some (roomCursors st !! room) ↔ is_Some (activeRooms st !! room)) ∧
  (activeRooms st !! room = None → is_Some (activeRooms st' !! room) →
     ∃ sock now uid, e = Message sock now (JoinRoom room uid true) ∧
       members st' room = {[sock]} ∧ roomCursors st' !! room = Some ∅) ∧
  (is_Some (activeRooms st !! room) → activeRooms st' !! room = None →
     ∃ sock, members st room = {[sock]} ∧ roomCursors st' !! room = None ∧
       (e = Disconnect sock ∨
        ∃ now roomId uid isCreating, e = Message sock now (JoinRoom roomId uid isCreating))).
Proof.
  intros st st'. pose proof (reachable_consistent evs) as Hst. fold st in Hst.
  split; [|split; [|split]].
  - unfold members. split.
    + intros [s Hs]. rewrite Hs. simpl. by eapply rooms_nonempty.
    + destruct (activeRooms st !! room); [eauto|done].
  - by apply cursors_follow.
  - by apply room_created.
  - by apply room_deleted.
Qed.

Lemma room_key_iff_nonempty_witness :
  let created := step (run initial [Connect "X"]) (Message "X" 10 (JoinRoom "r1" "u1" true)) in
  let deleted := step created.1 (Disconnect "X") in
  activeRooms (run initial [Connect "X"]) !! "r1" = None ∧
  (∃ sock now uid,
     Message "X" 10 (JoinRoom "r1" "u1" true) = Message sock now (JoinRoom "r1" uid true) ∧
     members created.1 "r1" = {[sock]} ∧ roomCursors created.1 !! "r1" = Some ∅) ∧
  activeRooms deleted.1 !! "r1" = None ∧
  (∃ sock, members created.1 "r1" = {[sock]} ∧ roomCursors deleted.1 !! "r1" = None ∧
     (Disconnect "X" = Disconnect sock ∨
      ∃ now roomId uid isCreating,
        Disconnect "X" = Message sock now (JoinRoom roomId uid isCreating))).
Proof.
  destruct (room_key_iff_nonempty [Connect "X"]
              (Message "X" 10 (JoinRoom "r1" "u1" true)) "r1") as (_ & _ & Hcreated & _).
  destruct (room_key_iff_nonempty [Connect "X"; Message "X" 10 (JoinRoom "r1" "u1" true)]
              (Disconnect "X") "r1") as (_ & _ & _ & Hdeleted).
  split; [by vm_compute|]. split.
  - apply Hcreated; by vm_compute; eauto.
  - split; [by vm_compute|]. apply Hdeleted; by vm_compute; eauto.
Defined.

(** ** The cursor store *)

Lemma cursor_of_insert st room (cm : gmap string Cursor) room' sock' :
  cursor_of (set_roomCursors (<[room := cm]>) st) room' sock' =
  if decide (room' = room) then cm !! sock' else cursor_of st room' sock'.
Proof.
  unfold cursor_of; simpl. case_decide; subst.
  - by rewrite lookup_insert_eq.
  - by rewrite lookup_insert_ne.
Qed.

Lemma cursor_of_no_map st room sock :
  roomCursors st !! room = None → cursor_of st room sock = None.
Proof. unfold cursor_of. by intros ->. Qed.

Lemma cursor_of_map st room cm sock :
  roomCursors st !! room = Some cm → cursor_of st room sock = cm !! sock.
Proof. unfold cursor_of. by intros ->. Qed.

Lemma cursor_of_on_cursor_move sock now roomId pos uid info st room' sock' :
  cursor_of (on_cursor_move sock now roomId pos uid info st).1 room' sock' =
  if decide (is_Some (roomCursors st !! roomId) ∧ room' = roomId ∧ sock' = sock)
  then Some (mkCursor (Some pos) None None (Some uid) (Some info) (Some now))
  else cursor_of st room' sock'.
Proof.
  unfold on_cursor_move. destruct (roomCursors st !! roomId) as [cm|] eqn:Hcm; simpl.
  - rewrite cursor_of_insert. destruct (decide (room' = roomId)) as [->|Hr].
    + rewrite (cursor_of_map _ _ _ _ Hcm). destruct (decide (sock' = sock)) as [->|Hs].
      * by rewrite lookup_insert_eq, decide_True by eauto.
      * rewrite lookup_insert_ne by done. by rewrite decide_False by naive_solver.
    + by rewrite decide_False by naive_solver.
  - done.
Qed.

Lemma cursor_of_on_cursor_visibility sock now roomId visible uid info st room' sock' :
  cursor_of (on_cursor_visibility sock now roomId visible uid info st).1 room' sock' =
  if decide (is_Some (roomCursors st !! roomId) ∧ room' = roomId ∧ sock' = sock)
  then (if visible
        then Some (mkCursor None None (Some true) (Some uid) (Some info) (Some now))
        else None)
  else cursor_of st room' sock'.
Proof.
  unfold on_cursor_visibility. destruct (roomCursors st !! roomId) as [cm|] eqn:Hcm; simpl.
  - destruct (decide (room' = roomId)) as [->|Hr].
    + rewrite (cursor_of_map _ _ _ _ Hcm). destruct (decide (sock' = sock)) as [->|Hs].
      * rewrite decide_True by eauto.
        destruct visible; rewrite cursor_of_insert, decide_True by done;
          by rewrite ?lookup_insert_eq, ?lookup_delete_eq.
      * rewrite decide_False by naive_solver.
        destruct visible; rewrite cursor_of_insert, decide_True by done;
          by rewrite ?lookup_insert_ne, ?lookup_delete_ne.
    + rewrite decide_False by naive_solver.
      destruct visible; by rewrite cursor_of_insert, decide_False.
  - done.
Qed.

Lemma cursor_of_on_cursor_selection sock now roomId sel uid info st room' sock' :
  cursor_of (on_cursor_selection sock now roomId sel uid info st).1 room' sock' =
  if decide (room' = roomId ∧ sock' = sock)
  then (λ cur, mkCursor (position cur) (Some sel) (isVisible cur) (userId cur)
                 (userInfo cur) (Some now)) <$> cursor_of st roomId sock
  else cursor_of st room' sock'.
Proof.
  unfold on_cursor_selection. destruct (roomCursors st !! roomId) as [cm|] eqn:Hcm; simpl.
  - rewrite (cursor_of_map _ _ _ _ Hcm).
    destruct (cm !! sock) as [cur|] eqn:Hcur; simpl.
    + rewrite cursor_of_insert. destruct (decide (room' = roomId)) as [->|Hr].
      * rewrite (cursor_of_map _ _ _ _ Hcm). destruct (decide (sock' = sock)) as [->|Hs].
        -- by rewrite lookup_insert_eq, decide_True.
        -- rewrite lookup_insert_ne by done. by rewrite decide_False by naive_solver.
      * by rewrite decide_False by naive_solver.
    + case_decide as Hd; [|done]. destruct Hd as [-> ->].
      by rewrite (cursor_of_map _ _ _ _ Hcm).
  - case_decide as Hd; [|done]. destruct Hd as [-> ->].
    by rewrite !cursor_of_no_map.
Qed.

Lemma cursor_of_remove_participant sock room st room' sock' :
  cursor_of (remove_participant sock room st) room' sock' = None ∨
  cursor_of (remove_participant sock room st) room' sock' = cursor_of st room' sock'.
Proof.
  unfold cursor_of. rewrite roomCursors_remove_participant. case_decide; eauto.
Qed.

Lemma cursor_of_leave_previous_room sock st room' sock' :
  cursor_of (leave_previous_room sock st) room' sock' = None ∨
  cursor_of (leave_previous_room sock st) room' sock' = cursor_of st room' sock'.
Proof.
  unfold cursor_of. rewrite roomCursors_leave_previous_room. case_decide; eauto.
Qed.

Lemma cursor_of_join_new_room sock roomId st room' sock' :
  cursor_of (join_new_room sock roomId st) room' sock' = cursor_of st room' sock'.
Proof.
  unfold cursor_of. rewrite roomCursors_join_new_room.
  destruct (decide (room' = roomId)) as [->|Hr].
  - rewrite lookup_insert_eq. by destruct (roomCursors st !! roomId).
  - by rewrite lookup_insert_ne.
Qed.

Lemma cursor_of_on_disconnect sock st room' sock' :
  cursor_of (on_disconnect sock st).1 room' sock' = None ∨
  cursor_of (on_disconnect sock st).1 room' sock' = cursor_of st room' sock'.
Proof.
  destruct (tracked_room sock st) as [room|] eqn:Htr.
  - destruct (on_disconnect_tracked _ _ _ Htr) as (_ & _ & Hc & _).
    unfold cursor_of at 1 2. rewrite Hc.
    destruct (roomCursors (remove_participant sock room st) !! room) as [cm|] eqn:Hcm.
    + destruct (decide (room' = room)) as [->|Hr].
      * rewrite lookup_insert_eq. simpl.
        destruct (decide (sock' = sock)) as [->|Hs]; [left; apply lookup_delete_eq|].
        rewrite lookup_delete_ne by done.
        rewrite roomCursors_remove_participant in Hcm.
        case_decide; [done|]. right. unfold cursor_of. by rewrite Hcm.
      * rewrite lookup_insert_ne by done. apply cursor_of_remove_participant.
    + apply cursor_of_remove_participant.
  - rewrite on_disconnect_untracked by done. by right.
Qed.

Lemma record_created st e room sock :
  cursor_of st room sock = None →
  is_Some (cursor_of (step st e).1 room sock) →
  (∃ now pos uid info, e = Message sock now (CursorMove room pos uid info)) ∨
  (∃ now uid info, e = Message sock now (CursorVisibility room true uid info)).
Proof.
  intros Hnone [cur Hcur].
  destruct e as [s|s now m|s]; simpl in Hcur.
  - case_decide; simpl in Hcur; unfold cursor_of in *; simpl in *; congruence.
  - case_decide; simpl in Hcur; [|congruence].
    destruct m; simpl in Hcur; try congruence.
    + destruct (on_join_room_cases roomId isCreating st) as [[Hn ->]|Hok].
      { rewrite on_join_room_rejected in Hcur by done. simpl in Hcur. congruence. }
      rewrite on_join_room_accepted in Hcur by done. simpl in Hcur.
      rewrite cursor_of_join_new_room in Hcur.
      destruct (cursor_of_leave_previous_room s st room sock); congruence.
    + unfold on_check_room in Hcur. case_bool_decide; simpl in Hcur; congruence.
    + rewrite cursor_of_on_cursor_move in Hcur.
      case_decide as Hd; [|congruence]. destruct Hd as (_ & -> & ->). left. eauto.
    + rewrite cursor_of_on_cursor_selection in Hcur.
      case_decide as Hd; [|congruence]. destruct Hd as [-> ->].
      rewrite Hnone in Hcur. done.
    + rewrite cursor_of_on_cursor_visibility in Hcur.
      case_decide as Hd; [|congruence]. destruct Hd as (_ & -> & ->).
      destruct visible; [|done]. right. eauto.
  - case_decide; simpl in Hcur; [|congruence].
    destruct (cursor_of_on_disconnect s (transport_close s st) room sock) as [Hd|Hd];
      rewrite Hd in Hcur; [done|]. unfold cursor_of in *. simpl in *. congruence.
Qed.

(** ** Rejected joins, and disconnects of unjoined sockets *)

(** C5: a [join-room] request with [isCreating = false] naming a room
    that is not a key of [activeRooms] leaves the whole state as it was
    (membership table, registry, cursor store) and emits exactly one
    event, [room-not-available], whose only recipient is the sender. *)
Theorem join_missing_room_rejected (st : Server) (sock roomId uid : string) (now : Z) :
  activeRooms st !! roomId = None →
  handle sock now (JoinRoom roomId uid false) st =
  (st, [mkEmit {[sock]} "room-not-available" (VStr "Room does not exist")]).
Proof. intros Hr. simpl. by apply on_join_room_rejected. Qed.

Lemma join_missing_room_rejected_witness :
  let st := run initial two_in_r1 in
  activeRooms st !! "r2" = None ∧
  handle "Y" 12 (JoinRoom "r2" "u2" false) st =
  (st, [mkEmit {["Y"]} "room-not-available" (VStr "Room does not exist")]).
Proof.
  split; [by vm_compute|].
  apply (join_missing_room_rejected (run initial two_in_r1) "Y" "r2" "u2" 12).
  by vm_compute.
Defined.

(** C10: the disconnect of a socket without a registry entry changes
    none of the three maps and emits nothing. *)
Theorem disconnect_unjoined_noop (st : Server) (sock : string) :
  socketToRoom st !! sock = None →
  on_disconnect sock st = (st, []) ∧
  activeRooms (step st (Disconnect sock)).1 = activeRooms st ∧
  socketToRoom (step st (Disconnect sock)).1 = socketToRoom st ∧
  roomCursors (step st (Disconnect sock)).1 = roomCursors st ∧
  (step st (Disconnect sock)).2 = [].
Proof.
  intros Hreg.
  assert (∀ st', socketToRoom st' = socketToRoom st → on_disconnect sock st' = (st', []))
    as Hnoop.
  { intros st' Heq. apply on_disconnect_untracked. unfold tracked_room.
    by rewrite Heq, Hreg. }
  split; [by apply Hnoop|]. simpl. case_decide; [|done].
  by rewrite Hnoop.
Qed.

Lemma disconnect_unjoined_noop_witness :
  let st := run initial [Connect "X"; Connect "Y"; Message "X" 10 (JoinRoom "r1" "u1" true)] in
  socketToRoom st !! "Y" = None ∧
  "Y" ∈ sockets st ∧
  activeRooms (step st (Disconnect "Y")).1 = activeRooms st ∧
  (step st (Disconnect "Y")).2 = [].
Proof.
  split; [by vm_compute|]. split; [by vm_compute|].
  pose proof (disconnect_unjoined_noop
    (run initial [Connect "X"; Connect "Y"; Message "X" 10 (JoinRoom "r1" "u1" true)])
    "Y" eq_refl) as (_ & Ha & _ & _ & Ho).
  by split.
Defined.

(** ** Cursor events *)

(** C7: a [cursor-selection] event for a (room, socket) pair without a
    cursor object leaves the state as it was; when the pair has a cursor
    object, that object keeps every field but [selection] and
    [timestamp], and nothing else in the state changes; and whatever
    the event, a pair that had no cursor object and has one afterwards
    got it from its own [cursor-move] or [cursor-visibility] with
    [isVisible = true]. *)
Theorem selection_never_creates (st : Server) (sock room : string) (now : Z)
    (sel : Value) (uid : string) (info : Value) :
  let st' := (handle sock now (CursorSelection room sel uid info) st).1 in
  (cursor_of st room sock = None → st' = st) ∧
  (∀ cur, cursor_of st room sock = Some cur →
     cursor_of st' room sock =
       Some (mkCursor (position cur) (Some sel) (isVisible cur) (userId cur)
               (userInfo cur) (Some now)) ∧
     (∀ room' sock', ¬ (room' = room ∧ sock' = sock) →
        cursor_of st' room' sock' = cursor_of st room' sock') ∧
     activeRooms st' = activeRooms st ∧ socketToRoom st' = socketToRoom st) ∧
  (∀ e room' sock',
     cursor_of st room' sock' = None →
     is_Some (cursor_of (step st e).1 room' sock') →
     (∃ now' pos uid' info', e = Message sock' now' (CursorMove room' pos uid' info')) ∨
     (∃ now' uid' info', e = Message sock' now' (CursorVisibility room' true uid' info'))).
Proof.
  simpl. split; [|split].
  - unfold cursor_of, on_cursor_selection.
    destruct (roomCursors st !! room) as [cm|]; simpl; [|done]. by intros ->.
  - intros cur Hcur. split; [|split].
    + by rewrite cursor_of_on_cursor_selection, decide_True, Hcur.
    + intros room' sock' Hne. by rewrite cursor_of_on_cursor_selection, decide_False.
    + unfold on_cursor_selection. destruct (roomCursors st !! room) as [cm|]; [|done].
      by destruct (cm !! sock).
  - intros e room' sock'. apply record_created.
Qed.

Lemma selection_never_creates_witness :
  let st := run initial two_in_r1 in
  let st2 := run initial cursor_in_r1 in
  cursor_of st "r1" "Y" = None ∧
  (handle "Y" 13 (CursorSelection "r1" sel_3_5 "u2" info_u2) st).1 = st ∧
  cursor_of st2 "r1" "Y" = Some (mkCursor (Some pos_3_5) None None (Some "u2") (Some info_u2) (Some 12)) ∧
  cursor_of (handle "Y" 13 (CursorSelection "r1" sel_3_5 "u2" info_u2) st2).1 "r1" "Y" =
    Some (mkCursor (Some pos_3_5) (Some sel_3_5) None (Some "u2") (Some info_u2) (Some 13)).
Proof.
  destruct (selection_never_creates (run initial two_in_r1) "Y" "r1" 13 sel_3_5 "u2" info_u2)
    as (Hnone & _ & _).
  destruct (selection_never_creates (run initial cursor_in_r1) "Y" "r1" 13 sel_3_5 "u2" info_u2)
    as (_ & Hsome & _).
  split; [by vm_compute|]. split; [apply Hnone; by vm_compute|].
  split; [by vm_compute|].
  apply (Hsome (mkCursor (Some pos_3_5) None None (Some "u2") (Some info_u2) (Some 12))).
  by vm_compute.
Defined.

(** C8, as the code has it: after a [cursor-visibility] event with
    [isVisible = false] the (room, socket) pair has no cursor object;
    after a [cursor-move] event naming a room that has a cursor map, for
    a pair without a cursor object, the pair has one whose keys are
    exactly [position], [userId], [userInfo] and [timestamp]. *)
Theorem hidden_cursor_gone_moved_cursor_stored (st : Server) (sock room : string) (now : Z)
    (pos : Value) (uid : string) (info : Value) :
  cursor_of (handle sock now (CursorVisibility room false uid info) st).1 room sock = None ∧
  (is_Some (roomCursors st !! room) → cursor_of st room sock = None →
     ∃ cur, cursor_of (handle sock now (CursorMove room pos uid info) st).1 room sock = Some cur ∧
       cur = mkCursor (Some pos) None None (Some uid) (Some info) (Some now) ∧
       cursor_keys cur = ["position"; "userId"; "userInfo"; "timestamp"]).
Proof.
  simpl. split.
  - rewrite cursor_of_on_cursor_visibility. case_decide as Hd; [done|].
    destruct (roomCursors st !! room) as [cm|] eqn:Hcm.
    + rewrite (cursor_of_map _ _ _ _ Hcm).
      destruct (cm !! sock) eqn:Hs; [|done]. exfalso. apply Hd. eauto.
    + by apply cursor_of_no_map.
  - intros Hroom _. eexists. rewrite cursor_of_on_cursor_move, decide_True by done.
    done.
Qed.

Lemma hidden_cursor_gone_moved_cursor_stored_witness :
  let st := run initial two_in_r1 in
  is_Some (roomCursors st !! "r1") ∧ cursor_of st "r1" "Y" = None ∧
  ∃ cur, cursor_of (handle "Y" 12 (CursorMove "r1" pos_3_5 "u2" info_u2) st).1 "r1" "Y" = Some cur ∧
    cur = mkCursor (Some pos_3_5) None None (Some "u2") (Some info_u2) (Some 12) ∧
    cursor_keys cur = ["position"; "userId"; "userInfo"; "timestamp"].
Proof.
  destruct (hidden_cursor_gone_moved_cursor_stored (run initial two_in_r1) "Y" "r1" 12
              pos_3_5 "u2" info_u2) as (_ & Hmove).
  assert (is_Some (roomCursors (run initial two_in_r1) !! "r1")) as Hroom
    by (by vm_compute; eauto).
  assert (cursor_of (run initial two_in_r1) "r1" "Y" = None) as Hnone by (by vm_compute).
  split; [done|]. split; [done|]. by apply Hmove.
Defined.

(** C8 as stated fails twice.  [Y], in room [r1] without a cursor
    object, sends [cursor-move]: the stored object carries [userId]
    besides [position], [userInfo] and [timestamp].  And [Y] sends
    [cursor-move] naming [r2], which has no cursor map: no object is
    stored at all. *)
Lemma cursor_move_also_stores_userId :
  let st := run initial two_in_r1 in
  let moved := (handle "Y" 12 (CursorMove "r1" pos_3_5 "u2" info_u2) st).1 in
  let stray := (handle "Y" 12 (CursorMove "r2" pos_3_5 "u2" info_u2) st).1 in
  cursor_of st "r1" "Y" = None ∧
  cursor_keys <$> cursor_of moved "r1" "Y" = Some ["position"; "userId"; "userInfo"; "timestamp"] ∧
  cursor_keys <$> cursor_of moved "r1" "Y" ≠ Some ["position"; "userInfo"; "timestamp"] ∧
  cursor_of st "r2" "Y" = None ∧
  cursor_of stray "r2" "Y" = None.
Proof. by vm_compute. Qed.

(** ** Fan-out *)

Lemma delivered_single sock em :
  delivered sock [em] =
  if decide (sock ∈ recipients em) then [(event em, payload em)] else [].
Proof.
  unfold delivered. rewrite filter_cons, filter_nil. by case_decide.
Qed.

Lemma adapterRoom_set_roomCursors f st room :
  adapterRoom (set_roomCursors f st) room = adapterRoom st room.
Proof. done. Qed.

(** What a fan-out listener emits: nothing, or one event under the
    outbound name for the Socket.IO room of the payload's room id. *)
Lemma fanout_emits sock now m room st :
  fanout_room m = Some room →
  (handle sock now m st).2 = [] ∨
  ∃ data, (handle sock now m st).2 =
          [mkEmit (adapterRoom st room ∖ adapterRoom st sock) (renamed (inbound_name m)) data].
Proof.
  destruct m; simpl; try done; intros [= ->]; try (right; eexists; reflexivity).
  - unfold on_cursor_move. destruct (roomCursors st !! room); simpl; [|by left].
    right. eexists. reflexivity.
  - unfold on_cursor_selection. destruct (roomCursors st !! room) as [cm|]; simpl; [|by left].
    right. destruct (cm !! sock); eexists; reflexivity.
  - unfold on_cursor_visibility. destruct (roomCursors st !! room); simpl; [|by left].
    right. destruct visible; eexists; reflexivity.
Qed.

(** With a cursor map for the room, every fan-out listener emits. *)
Lemma fanout_emits_one sock now m room st :
  fanout_room m = Some room →
  is_Some (roomCursors st !! room) →
  ∃ data, (handle sock now m st).2 =
          [mkEmit (adapterRoom st room ∖ adapterRoom st sock) (renamed (inbound_name m)) data].
Proof.
  intros Hm [cm Hcm]. destruct m; simpl in *; try done; injection Hm as ->;
    try (eexists; reflexivity).
  - unfold on_cursor_move. rewrite Hcm. simpl. eexists. reflexivity.
  - unfold on_cursor_selection. rewrite Hcm. simpl.
    destruct (cm !! sock); eexists; reflexivity.
  - unfold on_cursor_visibility. rewrite Hcm. simpl.
    destruct visible; eexists; reflexivity.
Qed.

(** ** Where the broadcast goes astray *)

(** C6, on two histories.  [X] creates the room named by its own
    socket id and then [r2]; the "leave previous room" block has taken
    it out of the Socket.IO room of its id, the one [socket.to]
    excludes, so its own [code-changed] for [r2] comes back to it.  And
    with [X] and [Y] both in the room named by [X]'s id, [code-changed]
    of [X] for that room does not reach [Y], a connected member: [Y]
    sits in the excluded room. *)
Theorem fanout_astray_around_id_rooms :
  let st := run initial left_own_id_room in
  let st2 := run initial two_in_id_room in
  "X" ∈ sockets st ∧ "X" ∈ members st "r2" ∧
  delivered "X" (step st (Message "X" 12 (CodeChanged "r2" "x = 1"))).2 =
    [("code-changed", VObj [("code", VStr "x = 1")])] ∧
  "Y" ∈ sockets st2 ∧ "Y" ∈ members st2 "X" ∧
  delivered "Y" (step st2 (Message "X" 12 (CodeChanged "X" "x = 1"))).2 = [].
Proof. by vm_compute. Qed.

(** C9, on the history in which [X] and [Y] are in the room named by
    [X]'s socket id and [X], without a cursor object there, sends
    [cursor-selection] for it: the room is a key of [activeRooms], the
    one event is emitted, and it reaches nobody; [Y], a connected
    member, does not receive it. *)
Theorem selection_astray_in_id_room :
  let st := run initial two_in_id_room in
  let r := step st (Message "X" 12 (CursorSelection "X" sel_3_5 "u1" info_u2)) in
  is_Some (activeRooms st !! "X") ∧ cursor_of st "X" "X" = None ∧
  "Y" ∈ sockets st ∧ "Y" ∈ members st "X" ∧
  event <$> r.2 = ["cursor-selection"] ∧
  delivered "Y" r.2 = [].
Proof. split; [by vm_compute; eauto|]. by vm_compute. Qed.

(** ** Where the cleanup falls short *)

(** C1, on the history in which [X] creates the room whose id is the
    empty string and disconnects: the registry entry [""] is falsy, the
    [disconnect] handler skips its body, and the room stays a key of
    [activeRooms], with its cursor map and with [X] in its member set,
    after its last member has departed and no socket is connected. *)
Theorem room_outlives_last_member :
  let st := run initial [Connect "X"; Message "X" 10 (JoinRoom "" "u1" true)] in
  let st' := (step st (Disconnect "X")).1 in
  members st "" = {["X"]} ∧ "X" ∈ sockets st ∧
  sockets st' = ∅ ∧
  activeRooms st' !! "" = Some {["X"]} ∧
  roomCursors st' !! "" = Some ∅.
Proof. by vm_compute. Qed.

(** C2, on the history in which [X] creates the room whose id is the
    empty string and then creates [r1]: the registry entry [""] is
    falsy, the "leave previous room" block is skipped, and [X] ends up
    in the member sets of both rooms while the registry names [r1]. *)
Theorem socket_in_two_member_sets :
  let st := run initial [ Connect "X";
                          Message "X" 10 (JoinRoom "" "u1" true);
                          Message "X" 11 (JoinRoom "r1" "u1" true) ] in
  "X" ∈ members st "" ∧ "X" ∈ members st "r1" ∧
  socketToRoom st !! "X" = Some "r1".
Proof. by vm_compute. Qed.

(** C3, on the history in which [X] and [Y] are in the room whose id
    is the empty string and [X] disconnects: the registry entry [""] is
    falsy, so the handler does nothing; [X] stays in the member set and
    in the registry, and [Y] is sent no [user-left]. *)
Theorem disconnect_skipped_for_unnamed_room :
  let st := run initial two_in_unnamed in
  let st' := (step st (Disconnect "X")).1 in
  socketToRoom st !! "X" = Some "" ∧ members st "" = {["X"; "Y"]} ∧
  "X" ∈ members st' "" ∧ socketToRoom st' !! "X" = Some "" ∧
  (step st (Disconnect "X")).2 = [].
Proof. by vm_compute. Qed.

(** C4, on the history in which [X] and [Y] are in [r1], [Y] has
    reported a cursor position and then creates [r2]: [Y] leaves the
    member set of [r1], but its cursor object stays in the cursor map of
    [r1]; the [disconnect] handler, in the same state, deletes it. *)
Theorem cursor_survives_room_switch :
  let st := run initial cursor_in_r1 in
  let st' := (step st (Message "Y" 13 (JoinRoom "r2" "u2" true))).1 in
  socketToRoom st !! "Y" = Some "r1" ∧
  members st' "r1" = {["X"]} ∧ socketToRoom st' !! "Y" = Some "r2" ∧
  cursor_of st' "r1" "Y" =
    Some (mkCursor (Some pos_3_5) None None (Some "u2") (Some info_u2) (Some 12)) ∧
  cursor_of (step st (Disconnect "Y")).1 "r1" "Y" = None.
Proof. by vm_compute. Qed.

(** ** The registry and the member sets, away from the empty room id *)

Lemma registry_agrees_ext st st' :
  activeRooms st' = activeRooms st → socketToRoom st' = socketToRoom st →
  registry_agrees st → registry_agrees st'.
Proof. unfold registry_agrees, members. by intros -> ->. Qed.

Lemma tracked_room_registry sock st :
  registry_agrees st → tracked_room sock st = socketToRoom st !! sock.
Proof.
  intros [_ HB]. unfold tracked_room, truthy.
  destruct (socketToRoom st !! sock) as [r|] eqn:Hr; [|done].
  destruct (String.eqb_spec r ""); [|done]. subst. by destruct (HB sock).
Qed.

Lemma registry_agrees_join sock roomId st :
  roomId ≠ "" →
  registry_agrees st →
  registry_agrees (join_new_room sock roomId (leave_previous_room sock st)).
Proof.
  intros Hnamed Hst. pose proof Hst as [HA HB].
  pose proof (tracked_room_registry sock st Hst) as Htr.
  destruct (join_new_room_frame sock roomId (leave_previous_room sock st)) as (Hreg & _).
  destruct (leave_previous_room_frame sock st) as (Hreg1 & _).
  assert (∀ r, sock ∉ members (leave_previous_room sock st) r) as Hout.
  { intros r. rewrite members_leave_previous_room. case_decide as Hd; [set_solver|].
    intros Hin%HA. apply Hd. by rewrite Htr. }
  assert (∀ sock' r, sock' ≠ sock →
            sock' ∈ members (leave_previous_room sock st) r ↔ sock' ∈ members st r) as Hoth.
  { intros sock' r Hne. rewrite members_leave_previous_room. case_decide; set_solver. }
  split.
  - intros sock' room. rewrite Hreg, Hreg1, members_join_new_room.
    destruct (decide (sock' = sock)) as [->|Hne].
    + rewrite lookup_insert_eq. case_decide; subst.
      * split; [done|set_solver].
      * split; [by intros ?%Hout|congruence].
    + rewrite lookup_insert_ne by done. rewrite <- HA, <- (Hoth _ _ Hne).
      case_decide; subst; [|done]. set_solver.
  - intros sock'. rewrite Hreg, Hreg1.
    destruct (decide (sock' = sock)) as [->|Hne].
    + rewrite lookup_insert_eq. congruence.
    + rewrite lookup_insert_ne by done. apply HB.
Qed.

Lemma registry_agrees_on_disconnect sock st :
  registry_agrees st → registry_agrees (on_disconnect sock st).1.
Proof.
  intros Hst. pose proof Hst as [HA HB].
  pose proof (tracked_room_registry sock st Hst) as Htr.
  destruct (tracked_room sock st) as [room|] eqn:Hroom.
  - destruct (on_disconnect_tracked _ _ _ Hroom) as (Ha & Hr & _). split.
    + intros sock' r. unfold members. rewrite Ha, Hr.
      fold (members (remove_participant sock room st) r).
      rewrite members_remove_participant.
      destruct (decide (sock' = sock)) as [->|Hne].
      * rewrite lookup_delete_eq. split; [|done].
        case_decide; subst; [set_solver|]. intros Hin%HA. congruence.
      * rewrite lookup_delete_ne by done. rewrite <- HA.
        case_decide; subst; set_solver.
    + intros sock'. rewrite Hr. destruct (decide (sock' = sock)) as [->|Hne].
      * by rewrite lookup_delete_eq.
      * rewrite lookup_delete_ne by done. apply HB.
  - by rewrite on_disconnect_untracked.
Qed.

Lemma registry_agrees_step st e :
  joined_room e ≠ Some "" →
  registry_agrees st → registry_agrees (step st e).1.
Proof.
  intros Hnamed Hst. destruct e as [sock|sock now m|sock]; simpl; case_decide; simpl; try done.
  - destruct (joined_room (Message sock now m)) as [roomId|] eqn:Hj.
    + destruct m; try done. simpl in Hj. injection Hj as ->. simpl in *.
      destruct (on_join_room_cases roomId isCreating st) as [[Hn ->]|Hok].
      { by rewrite on_join_room_rejected. }
      rewrite on_join_room_accepted by done. simpl.
      apply registry_agrees_join; [congruence|done].
    + destruct (handle_activeRooms_frame sock now m st Hj) as (Ha & Hr & _).
      by eapply registry_agrees_ext.
  - apply registry_agrees_on_disconnect. by eapply registry_agrees_ext.
Qed.

Lemma registry_agrees_run st evs :
  named_rooms_only evs →
  registry_agrees st → registry_agrees (run st evs).
Proof.
  revert st. induction evs as [|e evs IH]; intros st Hevs Hst; simpl; [done|].
  inversion Hevs; subst. by apply IH, registry_agrees_step.
Qed.

(** X1: on the histories whose [join-room] requests all name a
    non-empty room id, a socket is in the member set of a room
    exactly when the registry maps it to that room, hence in at most
    one member set, and in none without a registry entry. *)
Theorem one_room_per_socket (evs : list Event) (sock room room' : string) :
  named_rooms_only evs →
  let st := run initial evs in
  (sock ∈ members st room ↔ socketToRoom st !! sock = Some room) ∧
  (sock ∈ members st room → sock ∈ members st room' → room = room') ∧
  (socketToRoom st !! sock = None → sock ∉ members st room).
Proof.
  intros Hevs st.
  assert (registry_agrees st) as [HA HB].
  { apply registry_agrees_run; [done|]. split; [|done].
    intros s r. unfold members. simpl. rewrite !lookup_empty. simpl. set_solver. }
  split; [apply HA|]. split.
  - intros H1%HA H2%HA. congruence.
  - intros Hnone Hin%HA. congruence.
Qed.

Lemma one_room_per_socket_witness :
  let st := run initial cursor_in_r1 in
  named_rooms_only cursor_in_r1 ∧
  ("Y" ∈ members st "r1" ↔ socketToRoom st !! "Y" = Some "r1") ∧
  "Y" ∈ members st "r1".
Proof.
  assert (named_rooms_only cursor_in_r1) as Hevs by (by repeat constructor).
  split; [done|]. split; [|by vm_compute].
  by apply (one_room_per_socket cursor_in_r1 "Y" "r1" "r1").
Defined.

(** ** The detach cascade, away from the empty room id *)

(** X2: for a registry entry other than the empty string, the
    [disconnect] handler takes the socket out of the room's member
    set, drops its cursor object there, clears the registry entry and
    emits the single event [user-left], addressed through [socket.to]
    to the sockets of the Socket.IO room that are not in the room named
    by the closing socket's id; when no member remains, the room entry
    and its cursor map are gone as well. *)
Theorem disconnect_cascade (st : Server) (sock room : string) :
  socketToRoom st !! sock = Some room → room ≠ "" →
  let st' := (on_disconnect sock st).1 in
  (sock ∉ members st' room) ∧
  cursor_of st' room sock = None ∧
  socketToRoom st' !! sock = None ∧
  (on_disconnect sock st).2 =
    [mkEmit (adapterRoom st room ∖ adapterRoom st sock) "user-left"
       (VObj [("socketId", VStr sock)])] ∧
  (is_Some (activeRooms st !! room) → members st room ∖ {[sock]} = ∅ →
     activeRooms st' !! room = None ∧ roomCursors st' !! room = None).
Proof.
  intros Hreg Hne st'.
  assert (tracked_room sock st = Some room) as Htr by (by apply tracked_room_Some).
  destruct (on_disconnect_tracked _ _ _ Htr) as (Ha & Hr & Hc & _ & Hout).
  fold st' in Ha, Hr, Hc.
  assert (cursor_of st' room sock = None) as Hcur.
  { unfold cursor_of. rewrite Hc.
    destruct (roomCursors (remove_participant sock room st) !! room) as [cm|] eqn:Hcm.
    - rewrite lookup_insert_eq. simpl. apply lookup_delete_eq.
    - by rewrite Hcm. }
  split; [|split; [done|split; [|split; [done|]]]].
  - unfold members. rewrite Ha. fold (members (remove_participant sock room st) room).
    rewrite members_remove_participant, decide_True by done. set_solver.
  - by rewrite Hr, lookup_delete_eq.
  - intros Hroom Hlast.
    assert (roomCursors (remove_participant sock room st) !! room = None) as Hgone.
    { by rewrite roomCursors_remove_participant, decide_True. }
    split.
    + rewrite Ha, activeRooms_remove_participant, lookup_partial_alter_eq.
      destruct Hroom as [s Hs]. rewrite Hs. simpl. unfold drop_from.
      unfold members in Hlast. rewrite Hs in Hlast. simpl in Hlast.
      by rewrite decide_True.
    + by rewrite Hc, Hgone.
Qed.

Lemma disconnect_cascade_witness :
  let st := transport_close "Y" (run initial cursor_in_r1) in
  socketToRoom st !! "Y" = Some "r1" ∧
  cursor_of st "r1" "Y" ≠ None ∧
  cursor_of (on_disconnect "Y" st).1 "r1" "Y" = None ∧
  (on_disconnect "Y" st).2 =
    [mkEmit {["X"]} "user-left" (VObj [("socketId", VStr "Y")])].
Proof.
  destruct (disconnect_cascade (transport_close "Y" (run initial cursor_in_r1)) "Y" "r1")
    as (_ & Hcur & _ & Hout & _); [by vm_compute|done|].
  split; [by vm_compute|]. split; [by vm_compute|]. split; [done|].
  rewrite Hout. by vm_compute.
Defined.

(** X3: what an accepted [join-room] request does to a registry entry
    [prev] other than the empty string and other than the requested
    room: the socket leaves the member set of [prev]; when no member
    remains there, the room entry and its cursor map (with the socket's
    cursor object) are gone; when members remain, the socket's cursor
    object in [prev] is left as it was. *)
Theorem switch_leaves_previous_room (st : Server) (sock prev roomId uid : string)
    (isCreating : bool) :
  socketToRoom st !! sock = Some prev → prev ≠ "" → prev ≠ roomId →
  (is_Some (activeRooms st !! roomId) ∨ isCreating = true) →
  let st' := (on_join_room sock roomId uid isCreating st).1 in
  (sock ∉ members st' prev) ∧
  (is_Some (activeRooms st !! prev) → members st prev ∖ {[sock]} = ∅ →
     activeRooms st' !! prev = None ∧ roomCursors st' !! prev = None ∧
     cursor_of st' prev sock = None) ∧
  (members st prev ∖ {[sock]} ≠ ∅ → cursor_of st' prev sock = cursor_of st prev sock).
Proof.
  intros Hreg Hne Hdiff Hok st'. unfold st'. rewrite on_join_room_accepted by done. simpl.
  assert (tracked_room sock st = Some prev) as Htr by (by apply tracked_room_Some).
  split; [|split].
  - rewrite members_join_new_room, decide_False by done.
    rewrite members_leave_previous_room, decide_True by done. set_solver.
  - intros Hroom Hlast.
    assert (roomCursors (join_new_room sock roomId (leave_previous_room sock st)) !! prev
            = None) as Hgone.
    { rewrite roomCursors_join_new_room, lookup_insert_ne by done.
      by rewrite roomCursors_leave_previous_room, decide_True. }
    split; [|split; [done|by apply cursor_of_no_map]].
    rewrite activeRooms_join_new_room, lookup_insert_ne by done.
    rewrite activeRooms_leave_previous_room, Htr, lookup_partial_alter_eq.
    destruct Hroom as [s Hs]. rewrite Hs. simpl. unfold drop_from.
    unfold members in Hlast. rewrite Hs in Hlast. simpl in Hlast.
    by rewrite decide_True.
  - intros Hrest. rewrite cursor_of_join_new_room. unfold cursor_of.
    rewrite roomCursors_leave_previous_room, decide_False; [done|]. naive_solver.
Qed.

Lemma switch_leaves_previous_room_witness :
  let st := run initial cursor_in_r1 in
  let st' := (on_join_room "Y" "r2" "u2" true st).1 in
  socketToRoom st !! "Y" = Some "r1" ∧
  (members st "r1" ∖ {["Y"]} ≠ ∅) ∧
  ("Y" ∉ members st' "r1") ∧
  cursor_of st' "r1" "Y" = cursor_of st "r1" "Y".
Proof.
  destruct (switch_leaves_previous_room (run initial cursor_in_r1) "Y" "r1" "r2" "u2" true)
    as (Hout & _ & Hstale); [by vm_compute|done|done|by right|].
  assert (members (run initial cursor_in_r1) "r1" ∖ {["Y"]} ≠ ∅) as Hrest.
  { intros Hempty. apply (f_equal (λ s : gset string, bool_decide ("X" ∈ s))) in Hempty.
    vm_compute in Hempty. discriminate Hempty. }
  split; [by vm_compute|]. split; [exact Hrest|]. split; [exact Hout|]. exact (Hstale Hrest).
Defined.

(** ** The end-to-end scenarios of the specification *)

(** A: [X] creates [r1] and receives [room-joined]; the room has one
    participant. *)
Example scenario_A :
  let evs := [Connect "X"; Connect "Y"] in
  let r := step (run initial evs) (Message "X" 10 (JoinRoom "r1" "u1" true)) in
  delivered "X" r.2 = [("room-joined", VObj [("roomId", VStr "r1")])] ∧
  delivered "Y" r.2 = [] ∧
  members r.1 "r1" = {["X"]}.
Proof. by vm_compute. Qed.

(** B: [Y] joins [r1] without the create flag; [Y] receives
    [room-joined], [X] receives [user-joined]. *)
Example scenario_B :
  let evs := [Connect "X"; Connect "Y"; Message "X" 10 (JoinRoom "r1" "u1" true)] in
  let r := step (run initial evs) (Message "Y" 11 (JoinRoom "r1" "u2" false)) in
  delivered "Y" r.2 = [("room-joined", VObj [("roomId", VStr "r1")])] ∧
  delivered "X" r.2 =
    [("user-joined", VObj [("userId", VStr "u2"); ("socketId", VStr "Y")])] ∧
  size (members r.1 "r1") = 2%nat.
Proof. by vm_compute. Qed.

(** C: [Y] reports a cursor position; only [X] receives it and the
    cursor store holds the object for ([r1], [Y]). *)
Example scenario_C :
  let r := step (run initial two_in_r1)
             (Message "Y" 12 (CursorMove "r1" pos_3_5 "u2" info_u2)) in
  delivered "X" r.2 =
    [("cursor-move", VObj [("socketId", VStr "Y"); ("position", pos_3_5);
                           ("userId", VStr "u2"); ("userInfo", info_u2)])] ∧
  delivered "Y" r.2 = [] ∧
  cursor_of r.1 "r1" "Y" =
    Some (mkCursor (Some pos_3_5) None None (Some "u2") (Some info_u2) (Some 12)).
Proof. by vm_compute. Qed.

(** D: [X] disconnects and [Y] receives [user-left]; when [Y]
    disconnects too the room is gone. *)
Example scenario_D :
  let r := step (run initial two_in_r1) (Disconnect "X") in
  let r' := step r.1 (Disconnect "Y") in
  delivered "Y" r.2 = [("user-left", VObj [("socketId", VStr "X")])] ∧
  members r.1 "r1" = {["Y"]} ∧
  activeRooms r'.1 !! "r1" = None ∧ roomCursors r'.1 !! "r1" = None ∧
  socketToRoom r'.1 = ∅.
Proof. by vm_compute. Qed.

(** * Further properties *)

(** ** The adapter's room table *)

Lemma adapterRooms_leave_previous_room sock st :
  adapterRooms (leave_previous_room sock st) =
  match tracked_room sock st with
  | Some prev => partial_alter (λ o, o ≫= drop_from sock) prev (adapterRooms st)
  | None => adapterRooms st
  end.
Proof.
  rewrite leave_previous_room_eq. destruct (tracked_room sock st) as [prev|]; [|done].
  destruct (remove_participant_frame sock prev (socket_leave sock prev st)) as (_ & -> & _).
  apply adapterRooms_socket_leave.
Qed.

Lemma adapterRooms_on_disconnect sock st :
  adapterRooms (on_disconnect sock st).1 = adapterRooms st.
Proof.
  destruct (tracked_room sock st) as [room|] eqn:Htr.
  - by destruct (on_disconnect_tracked _ _ _ Htr) as (_ & _ & _ & -> & _).
  - by rewrite on_disconnect_untracked.
Qed.

Lemma adapter_nonempty_join sock room st :
  (∀ r s, adapterRooms st !! r = Some s → s ≠ ∅) →
  ∀ r s, adapterRooms (socket_join sock room st) !! r = Some s → s ≠ ∅.
Proof.
  intros Hst r s. unfold socket_join; simpl.
  destruct (decide (r = room)) as [->|Hne].
  - rewrite lookup_insert_eq. intros [= <-]. set_solver.
  - rewrite lookup_insert_ne by done. apply Hst.
Qed.

Lemma adapter_nonempty_drop sock room (rooms : gmap string (gset string)) :
  (∀ r s, rooms !! r = Some s → s ≠ ∅) →
  ∀ r s, partial_alter (λ o, o ≫= drop_from sock) room rooms !! r = Some s → s ≠ ∅.
Proof.
  intros Hst r s. rewrite lookup_partial_alter. case_decide; subst; [|apply Hst].
  destruct (rooms !! r); simpl; [|done]. apply drop_from_nonempty.
Qed.

Lemma adapter_nonempty_step st e :
  (∀ r s, adapterRooms st !! r = Some s → s ≠ ∅) →
  ∀ r s, adapterRooms (step st e).1 !! r = Some s → s ≠ ∅.
Proof.
  intros Hst. destruct e as [sock|sock now m|sock]; simpl; case_decide; simpl; try done.
  - unfold transport_open. by apply adapter_nonempty_join.
  - destruct (joined_room (Message sock now m)) as [roomId|] eqn:Hj.
    + destruct m; try done. simpl in Hj. injection Hj as ->. simpl.
      destruct (on_join_room_cases roomId isCreating st) as [[Hn ->]|Hok].
      { by rewrite on_join_room_rejected. }
      rewrite on_join_room_accepted by done. simpl.
      destruct (join_new_room_frame sock roomId (leave_previous_room sock st))
        as (_ & -> & _).
      apply adapter_nonempty_join. rewrite adapterRooms_leave_previous_room.
      destruct (tracked_room sock st); [by apply adapter_nonempty_drop|done].
    + by destruct (handle_activeRooms_frame sock now m st Hj) as (_ & _ & ->).
  - rewrite adapterRooms_on_disconnect. simpl. intros r s.
    rewrite lookup_omap. destruct (adapterRooms st !! r); simpl; [|done].
    apply drop_from_nonempty.
Qed.

Lemma adapter_nonempty_run evs :
  ∀ r s, adapterRooms (run initial evs) !! r = Some s → s ≠ ∅.
Proof.
  assert (∀ st, (∀ r s, adapterRooms st !! r = Some s → s ≠ ∅) →
                ∀ r s, adapterRooms (run st evs) !! r = Some s → s ≠ ∅) as Hgen.
  { induction evs as [|e evs IH]; intros st Hst; simpl; [done|].
    by apply IH, adapter_nonempty_step. }
  apply Hgen. intros r s. simpl. by rewrite lookup_empty.
Qed.

(** ** The room status endpoint *)

Lemma size_positive (s : gset string) : s ≠ ∅ → (0 < size s)%nat.
Proof.
  intros Hs. destruct (size s) eqn:Hz; [|lia]. by apply size_zero in Hz.
Qed.

(** X4: after any history, the status object of a room that is a key
    of [activeRooms] has [exists: true] and counts the member set, which
    has at least one element; and for any room id the [exists] field is
    never [false]: it is [true] when the count is positive and is left
    out ([undefined]) when the count is zero, which is when the id is a
    key neither of [activeRooms] nor of the adapter's room table. *)
Theorem room_status_exists_or_missing (evs : list Event) (roomId : string) :
  let st := run initial evs in
  let status := room_status roomId st in
  (is_Some (activeRooms st !! roomId) →
     status_exists status = Some true ∧
     status_participantCount status = size (members st roomId) ∧
     (1 ≤ status_participantCount status)%nat) ∧
  status_exists status ≠ Some false ∧
  (status_exists status = Some true ↔ (0 < status_participantCount status)%nat) ∧
  (status_exists status = None ↔
     activeRooms st !! roomId = None ∧ adapterRooms st !! roomId = None) ∧
  status_activeRooms status = dom (activeRooms st).
Proof.
  intros st status. pose proof (reachable_consistent evs) as Hst. fold st in Hst.
  pose proof (adapter_nonempty_run evs) as Had. fold st in Had.
  unfold status, room_status, members. simpl.
  destruct (activeRooms st !! roomId) as [s|] eqn:Hs; simpl.
  - pose proof (size_positive s (rooms_nonempty _ Hst _ _ Hs)) as Hpos.
    rewrite bool_decide_true by done. simpl.
    split; [intros _; split; [done|split; [done|lia]]|].
    split; [done|]. split; [done|]. split; [|done].
    split; [done|]. by intros [? _].
  - split; [by intros [? ?]|].
    destruct (adapterRooms st !! roomId) as [s|] eqn:Ha; simpl.
    + pose proof (size_positive s (Had _ _ Ha)) as Hpos.
      rewrite bool_decide_true by done.
      split; [done|]. split; [done|]. split; [|done].
      split; [done|]. by intros [_ ?].
    + split; [done|]. split; [split; [done|lia]|]. done.
Qed.

Lemma room_status_exists_or_missing_witness :
  let st := run initial two_in_r1 in
  is_Some (activeRooms st !! "r1") ∧
  status_exists (room_status "r1" st) = Some true ∧
  status_participantCount (room_status "r1" st) = 2%nat ∧
  status_exists (room_status "r2" st) = None.
Proof.
  destruct (room_status_exists_or_missing two_in_r1 "r1") as (Hkey & _).
  destruct (room_status_exists_or_missing two_in_r1 "r2") as (_ & _ & _ & Hnone & _).
  assert (is_Some (activeRooms (run initial two_in_r1) !! "r1")) as Hroom
    by (by vm_compute; eauto).
  destruct (Hkey Hroom) as (Hex & Hcount & _).
  split; [done|]. split; [done|]. split; [by vm_compute|].
  apply Hnone. by vm_compute.
Defined.

(** ** The registry always names a room the socket is in *)

Lemma registered_member_step st e :
  (∀ sock room, socketToRoom st !! sock = Some room → sock ∈ members st room) →
  ∀ sock room, socketToRoom (step st e).1 !! sock = Some room →
               sock ∈ members (step st e).1 room.
Proof.
  intros Hst. destruct e as [s|s now m|s]; simpl; case_decide; simpl; try done.
  - destruct (joined_room (Message s now m)) as [roomId|] eqn:Hj.
    + destruct m; try done. simpl in Hj. injection Hj as ->. simpl.
      destruct (on_join_room_cases roomId isCreating st) as [[Hn ->]|Hok].
      { by rewrite on_join_room_rejected. }
      rewrite on_join_room_accepted by done. simpl. intros sock room.
      destruct (join_new_room_frame s roomId (leave_previous_room s st)) as (-> & _).
      destruct (leave_previous_room_frame s st) as (-> & _).
      rewrite members_join_new_room.
      destruct (decide (sock = s)) as [->|Hne].
      * rewrite lookup_insert_eq. intros [= <-]. rewrite decide_True by done. set_solver.
      * rewrite lookup_insert_ne by done. intros Hin%Hst.
        assert (sock ∈ members (leave_previous_room s st) room) as Hin'.
        { rewrite members_leave_previous_room. case_decide; set_solver. }
        case_decide; subst; set_solver.
    + destruct (handle_activeRooms_frame s now m st Hj) as (Ha & Hr & _).
      unfold members. rewrite Ha, Hr. apply Hst.
  - intros sock room.
    destruct (tracked_room s (transport_close s st)) as [prev|] eqn:Htr.
    + destruct (on_disconnect_tracked _ _ _ Htr) as (Ha & Hr & _).
      unfold members. rewrite Ha, Hr.
      fold (members (remove_participant s prev (transport_close s st)) room).
      rewrite members_remove_participant. simpl.
      destruct (decide (sock = s)) as [->|Hne]; [by rewrite lookup_delete_eq|].
      rewrite lookup_delete_ne by done. intros Hin%Hst.
      unfold members in *. simpl. case_decide; subst; set_solver.
    + rewrite on_disconnect_untracked by done. apply Hst.
Qed.

Lemma registered_member_run evs sock room :
  socketToRoom (run initial evs) !! sock = Some room →
  sock ∈ members (run initial evs) room.
Proof.
  assert (∀ st, (∀ sock room, socketToRoom st !! sock = Some room → sock ∈ members st room) →
                ∀ sock room, socketToRoom (run st evs) !! sock = Some room →
                             sock ∈ members (run st evs) room) as Hgen.
  { induction evs as [|e evs IH]; intros st Hst; simpl; [done|].
    by apply IH, registered_member_step. }
  apply Hgen. intros s r. simpl. by rewrite lookup_empty.
Qed.

(** X5: after any history, with or without rooms named by the empty
    string, a socket that has a registry entry is in the member set of
    the room the entry names; that room is a key of [activeRooms] and
    has a cursor map. *)
Theorem registered_socket_is_member (evs : list Event) (sock room : string) :
  let st := run initial evs in
  socketToRoom st !! sock = Some room →
  sock ∈ members st room ∧
  is_Some (activeRooms st !! room) ∧ is_Some (roomCursors st !! room).
Proof.
  intros st Hreg. pose proof (registered_member_run evs sock room Hreg) as Hin.
  fold st in Hin. split; [done|].
  assert (is_Some (activeRooms st !! room)) as Hkey.
  { unfold members in Hin. destruct (activeRooms st !! room); [eauto|set_solver]. }
  split; [done|]. by apply (cursors_follow _ (reachable_consistent evs)).
Qed.

Lemma registered_socket_is_member_witness :
  let st := run initial [ Connect "X";
                          Message "X" 10 (JoinRoom "" "u1" true);
                          Message "X" 11 (JoinRoom "r1" "u1" true) ] in
  socketToRoom st !! "X" = Some "r1" ∧ "X" ∈ members st "r1".
Proof.
  split; [by vm_compute|].
  apply (registered_socket_is_member
           [ Connect "X"; Message "X" 10 (JoinRoom "" "u1" true);
             Message "X" 11 (JoinRoom "r1" "u1" true) ] "X" "r1").
  by vm_compute.
Defined.

(** ** [check-room] and accepted joins *)

Lemma delivered_pair sock em1 em2 :
  delivered sock [em1; em2] = (delivered sock [em1] ++ delivered sock [em2])%list.
Proof.
  unfold delivered. rewrite !filter_cons, !filter_nil.
  by repeat case_decide.
Qed.

(** X6: [check-room] leaves the state alone and emits one answer,
    to the sender only; after any history the answer is [room-exists]
    exactly when the room has a member, and it agrees with what a
    [join-room] request without the create flag gets in the same state:
    after [room-exists] the join is accepted (the registry maps the
    sender to the room and the first event emitted is [room-joined], to
    the sender only), after [room-not-exists] it is rejected with
    [room-not-available] and changes nothing. *)
Theorem check_room_agrees_with_join (evs : list Event) (sock : string) (now : Z)
    (room uid : string) :
  let st := run initial evs in
  let asked := handle sock now (CheckRoom room) st in
  let joined := handle sock now (JoinRoom room uid false) st in
  asked.1 = st ∧
  ((members st room ≠ ∅ ∧
    asked.2 = [mkEmit {[sock]} "room-exists" (VObj [("roomId", VStr room)])] ∧
    socketToRoom joined.1 !! sock = Some room ∧
    head joined.2 = Some (mkEmit {[sock]} "room-joined" (VObj [("roomId", VStr room)]))) ∨
   (members st room = ∅ ∧
    asked.2 = [mkEmit {[sock]} "room-not-exists" (VObj [("roomId", VStr room)])] ∧
    joined = (st, [mkEmit {[sock]} "room-not-available" (VStr "Room does not exist")]))).
Proof.
  intros st asked joined. unfold asked, joined. simpl. unfold on_check_room.
  pose proof (reachable_consistent evs) as Hst. fold st in Hst.
  rewrite has_key. destruct (activeRooms st !! room) as [s|] eqn:Hs; simpl.
  - split; [done|]. left. split; [|split; [done|]].
    + unfold members. rewrite Hs. simpl. by eapply rooms_nonempty.
    + rewrite on_join_room_accepted by (left; rewrite Hs; eauto). simpl.
      destruct (join_new_room_frame sock room (leave_previous_room sock st)) as (-> & _).
      by rewrite lookup_insert_eq.
  - split; [done|]. right. split; [|split; [done|]].
    + unfold members. by rewrite Hs.
    + by apply on_join_room_rejected.
Qed.

(** X7: an accepted [join-room] request (the room is a key of
    [activeRooms] or [isCreating] holds), after any history: the
    registry maps the sender to the room, the sender is a member, the
    room has a cursor map; exactly two events are emitted, [room-joined]
    to the sender and [user-joined] through [socket.to] (no [user-left]
    for a room left behind).  When the Socket.IO room named by the
    sender's id holds the sender alone and is neither the requested room
    nor the registry entry, the sender receives only [room-joined] and
    every other connected member of the room receives only
    [user-joined] with the sender's user and socket ids. *)
Theorem join_accepted_effects (evs : list Event) (sock : string) (now : Z)
    (room uid : string) (isCreating : bool) (other : string) :
  let st := run initial evs in
  (is_Some (activeRooms st !! room) ∨ isCreating = true) →
  let r := handle sock now (JoinRoom room uid isCreating) st in
  socketToRoom r.1 !! sock = Some room ∧
  sock ∈ members r.1 room ∧
  is_Some (roomCursors r.1 !! room) ∧
  r.2 = [ mkEmit {[sock]} "room-joined" (VObj [("roomId", VStr room)]);
          mkEmit (adapterRoom r.1 room ∖ adapterRoom r.1 sock) "user-joined"
            (VObj [("userId", VStr uid); ("socketId", VStr sock)]) ] ∧
  (adapterRoom st sock = {[sock]} → room ≠ sock → socketToRoom st !! sock ≠ Some sock →
     delivered sock r.2 = [("room-joined", VObj [("roomId", VStr room)])] ∧
     (other ∈ members st room → other ∈ sockets st → other ≠ sock →
        delivered other r.2 =
          [("user-joined", VObj [("userId", VStr uid); ("socketId", VStr sock)])])).
Proof.
  intros st Hok r. pose proof (reachable_consistent evs) as Hst. fold st in Hst.
  unfold r in *. simpl in *. rewrite on_join_room_accepted in * by done. simpl in *.
  destruct (join_new_room_frame sock room (leave_previous_room sock st)) as (Hreg & _).
  split; [by rewrite Hreg, lookup_insert_eq|].
  split; [rewrite members_join_new_room, decide_True by done; set_solver|].
  split; [rewrite roomCursors_join_new_room, lookup_insert_eq; eauto|].
  split; [done|].
  intros Hown Hroom Hprev.
  assert (adapterRoom (join_new_room sock room (leave_previous_room sock st)) sock
          = {[sock]}) as Hexcept.
  { rewrite adapterRoom_join_new_room, decide_False by done.
    rewrite adapterRoom_leave_previous_room, decide_False; [done|].
    intros [Heq _]%tracked_room_Some. done. }
  rewrite Hexcept. split.
  - rewrite delivered_pair, !delivered_single. cbn [recipients event payload].
    rewrite decide_True by set_solver. rewrite decide_False by set_solver. done.
  - intros Hmem Hlive Hne.
    rewrite delivered_pair, !delivered_single. cbn [recipients event payload].
    rewrite decide_False by set_solver. rewrite decide_True; [done|].
    apply elem_of_difference. split; [|set_solver].
    rewrite adapterRoom_join_new_room, decide_True by done.
    apply elem_of_union_r. rewrite adapterRoom_leave_previous_room.
    pose proof (live_members _ Hst _ _ Hlive Hmem). case_decide; set_solver.
Qed.

Lemma join_accepted_effects_witness :
  let st := run initial [Connect "X"; Connect "Y"; Message "X" 10 (JoinRoom "r1" "u1" true)] in
  let r := handle "Y" 11 (JoinRoom "r1" "u2" false) st in
  is_Some (activeRooms st !! "r1") ∧ adapterRoom st "Y" = {["Y"]} ∧
  "X" ∈ members st "r1" ∧
  socketToRoom r.1 !! "Y" = Some "r1" ∧
  delivered "Y" r.2 = [("room-joined", VObj [("roomId", VStr "r1")])] ∧
  delivered "X" r.2 = [("user-joined", VObj [("userId", VStr "u2"); ("socketId", VStr "Y")])].
Proof.
  assert (is_Some (activeRooms (run initial [Connect "X"; Connect "Y";
            Message "X" 10 (JoinRoom "r1" "u1" true)]) !! "r1")) as Hroom
    by (by vm_compute; eauto).
  assert (adapterRoom (run initial [Connect "X"; Connect "Y";
            Message "X" 10 (JoinRoom "r1" "u1" true)]) "Y" = {["Y"]}) as Hown
    by (by vm_compute).
  assert (socketToRoom (run initial [Connect "X"; Connect "Y";
            Message "X" 10 (JoinRoom "r1" "u1" true)]) !! "Y" ≠ Some "Y") as Hprev
    by (by vm_compute).
  assert ("r1" ≠ "Y") as Hne by done.
  destruct (join_accepted_effects
              [Connect "X"; Connect "Y"; Message "X" 10 (JoinRoom "r1" "u1" true)]
              "Y" 11 "r1" "u2" false "X" (or_introl Hroom))
    as (Hreg & _ & _ & _ & Hdeliv).
  destruct (Hdeliv Hown Hne Hprev) as [Hself Hother].
  split; [exact Hroom|]. split; [exact Hown|]. split; [by vm_compute|].
  split; [exact Hreg|]. split; [exact Hself|].
  apply Hother; by vm_compute.
Defined.

(** ** Joining the room one is already in *)

(** X8: after any history, a [join-room] request for the room the
    registry already names for the sender (other than the empty string)
    is accepted whatever [isCreating] is and leaves [activeRooms] and
    [socketToRoom] exactly as they were; when the sender is the only
    member the room's cursor map is replaced by an empty one, otherwise
    the cursor store is unchanged; [room-joined] and [user-joined] are
    emitted again. *)
Theorem rejoin_same_room (evs : list Event) (sock : string) (now : Z)
    (room uid : string) (isCreating : bool) :
  let st := run initial evs in
  socketToRoom st !! sock = Some room → room ≠ "" →
  let r := handle sock now (JoinRoom room uid isCreating) st in
  activeRooms r.1 = activeRooms st ∧
  socketToRoom r.1 = socketToRoom st ∧
  (members st room = {[sock]} → roomCursors r.1 = <[room := ∅]> (roomCursors st)) ∧
  (members st room ≠ {[sock]} → roomCursors r.1 = roomCursors st) ∧
  event <$> r.2 = ["room-joined"; "user-joined"].
Proof.
  intros st Hreg Hne r. pose proof (reachable_consistent evs) as Hst. fold st in Hst.
  destruct (registered_socket_is_member evs sock room Hreg) as (Hin & [s Hs] & [cm Hcm]).
  fold st in Hin, Hs, Hcm.
  assert (members st room = s) as Hmem by (unfold members; by rewrite Hs).
  rewrite Hmem in *.
  assert (tracked_room sock st = Some room) as Htr by (by apply tracked_room_Some).
  unfold r. simpl. rewrite on_join_room_accepted by (left; eauto). simpl.
  destruct (join_new_room_frame sock room (leave_previous_room sock st)) as (Hr & _).
  destruct (leave_previous_room_frame sock st) as (Hr1 & _).
  assert (∀ room', roomCursors (leave_previous_room sock st) !! room' =
            if decide (room' = room ∧ s = {[sock]}) then None
            else roomCursors st !! room') as Hrc1.
  { intros room'. rewrite roomCursors_leave_previous_room, Htr.
    destruct (decide (room' = room ∧ s = {[sock]})) as [[-> ->]|Hd].
    - rewrite decide_True; [done|]. split; [done|]. split; [eauto|].
      rewrite Hmem. set_solver.
    - rewrite decide_False; [done|]. intros ([= ->] & _ & Hempty).
      rewrite Hmem in Hempty. apply Hd.
      split; [done|]. apply set_eq. intros x. rewrite elem_of_singleton. split.
      + intros Hx. destruct (decide (x = sock)); [done|]. set_solver.
      + by intros ->. }
  split; [|split; [|split; [|split; [|done]]]].
  - rewrite activeRooms_join_new_room, members_leave_previous_room, decide_True by done.
    rewrite activeRooms_leave_previous_room, Htr, Hmem. apply map_eq. intros room'.
    destruct (decide (room' = room)) as [->|Hd].
    + rewrite lookup_insert_eq, Hs. f_equal. apply set_eq. intros x.
      destruct (decide (x = sock)); set_solver.
    + rewrite lookup_insert_ne by done. by rewrite lookup_partial_alter_ne.
  - rewrite Hr, Hr1. by apply insert_id.
  - intros ->. rewrite roomCursors_join_new_room. apply map_eq. intros room'.
    destruct (decide (room' = room)) as [->|Hd].
    + rewrite !lookup_insert_eq, Hrc1, decide_True by done. done.
    + rewrite !lookup_insert_ne by done. rewrite Hrc1, decide_False; [done|]. naive_solver.
  - intros Hothers. rewrite roomCursors_join_new_room. apply map_eq. intros room'.
    destruct (decide (room' = room)) as [->|Hd].
    + rewrite lookup_insert_eq, Hrc1, decide_False by naive_solver. by rewrite Hcm.
    + rewrite lookup_insert_ne by done. rewrite Hrc1, decide_False; [done|]. naive_solver.
Qed.

Lemma rejoin_same_room_witness :
  let st := run initial (two_in_r1 ++ [Message "X" 12 (CursorMove "r1" pos_3_5 "u1" info_u2);
                                       Disconnect "Y"]) in
  let r := handle "X" 13 (JoinRoom "r1" "u1" false) st in
  socketToRoom st !! "X" = Some "r1" ∧ members st "r1" = {["X"]} ∧
  is_Some (cursor_of st "r1" "X") ∧
  activeRooms r.1 = activeRooms st ∧ cursor_of r.1 "r1" "X" = None.
Proof.
  assert (socketToRoom (run initial (two_in_r1 ++
            [Message "X" 12 (CursorMove "r1" pos_3_5 "u1" info_u2); Disconnect "Y"]))
            !! "X" = Some "r1") as Hreg by (by vm_compute).
  assert ("r1" ≠ "") as Hne by done.
  assert (members (run initial (two_in_r1 ++
            [Message "X" 12 (CursorMove "r1" pos_3_5 "u1" info_u2); Disconnect "Y"])) "r1"
          = {["X"]}) as Hsole by (by vm_compute).
  destruct (rejoin_same_room _ "X" 13 "r1" "u1" false Hreg Hne) as (Ha & _ & Hc & _).
  split; [exact Hreg|]. split; [exact Hsole|]. split; [by vm_compute; eauto|].
  split; [exact Ha|]. unfold cursor_of. rewrite (Hc Hsole), lookup_insert_eq. done.
Defined.

(** ** Shape and replacement of cursor objects *)

Lemma cursor_shape_step st e :
  (∀ room sock cur, cursor_of st room sock = Some cur → cursor_shape cur = true) →
  ∀ room sock cur, cursor_of (step st e).1 room sock = Some cur → cursor_shape cur = true.
Proof.
  intros Hst room sock cur.
  destruct e as [s|s now m|s]; simpl.
  - case_decide; simpl; apply Hst.
  - case_decide; simpl; [|apply Hst]. destruct m; simpl; try apply Hst.
    + destruct (on_join_room_cases roomId isCreating st) as [[Hn ->]|Hok].
      { rewrite on_join_room_rejected by done. apply Hst. }
      rewrite on_join_room_accepted by done. simpl. rewrite cursor_of_join_new_room.
      destruct (cursor_of_leave_previous_room s st room sock) as [->| ->]; [done|apply Hst].
    + unfold on_check_room. case_bool_decide; simpl; apply Hst.
    + rewrite cursor_of_on_cursor_move. case_decide; [by intros [= <-]|apply Hst].
    + rewrite cursor_of_on_cursor_selection. case_decide; [|apply Hst].
      destruct (cursor_of st roomId s) as [old|] eqn:Hold; simpl; [|done].
      intros [= <-]. apply Hst in Hold. unfold cursor_shape in *. simpl.
      by destruct (position old), (isVisible old) as [[]|], (userId old), (userInfo old).
    + rewrite cursor_of_on_cursor_visibility. case_decide; [|apply Hst].
      destruct visible; [by intros [= <-]|done].
  - case_decide; simpl; [|apply Hst].
    destruct (cursor_of_on_disconnect s (transport_close s st) room sock) as [->| ->];
      [done|apply Hst].
Qed.

(** X9: after any history every stored cursor object has one of the two
    shapes the handlers build: it carries [userId], [userInfo] and
    [timestamp], and either a [position] and no [isVisible], or
    [isVisible = true] and no [position]; a position and a visibility
    flag are never stored together, and [isVisible] is never stored as
    [false]. *)
Theorem stored_cursor_shape (evs : list Event) (room sock : string) (cur : Cursor) :
  cursor_of (run initial evs) room sock = Some cur →
  cursor_shape cur = true ∧
  is_Some (userId cur) ∧ is_Some (userInfo cur) ∧ is_Some (timestamp cur) ∧
  isVisible cur ≠ Some false ∧
  (is_Some (position cur) ↔ isVisible cur = None).
Proof.
  assert (∀ st, (∀ room sock cur, cursor_of st room sock = Some cur → cursor_shape cur = true) →
                ∀ room sock cur, cursor_of (run st evs) room sock = Some cur →
                                 cursor_shape cur = true) as Hgen.
  { induction evs as [|e evs IH]; intros st Hst; simpl; [done|].
    by apply IH, cursor_shape_step. }
  intros Hcur. apply Hgen in Hcur; [|done].
  split; [done|]. unfold cursor_shape in Hcur.
  destruct (position cur), (isVisible cur) as [[]|], (userId cur), (userInfo cur),
    (timestamp cur); try done; repeat split; eauto; try done; by intros [? ?].
Qed.

Lemma stored_cursor_shape_witness :
  cursor_of (run initial cursor_in_r1) "r1" "Y" =
    Some (mkCursor (Some pos_3_5) None None (Some "u2") (Some info_u2) (Some 12)) ∧
  cursor_shape (mkCursor (Some pos_3_5) None None (Some "u2") (Some info_u2) (Some 12)) = true.
Proof.
  assert (cursor_of (run initial cursor_in_r1) "r1" "Y" =
    Some (mkCursor (Some pos_3_5) None None (Some "u2") (Some info_u2) (Some 12))) as Hcur
    by (by vm_compute).
  split; [exact Hcur|].
  exact (proj1 (stored_cursor_shape cursor_in_r1 "r1" "Y" _ Hcur)).
Defined.

(** X10: [cursor-move] and [cursor-visibility] with [isVisible = true]
    replace the sender's cursor object instead of updating it: whatever
    object the pair had, a stored selection is gone afterwards, the move
    drops a visibility flag and the visibility update drops the
    position. *)
Theorem cursor_update_replaces_object (st : Server) (sock room : string) (now : Z)
    (pos : Value) (uid : string) (info : Value) (cur : Cursor) :
  cursor_of st room sock = Some cur →
  cursor_of (handle sock now (CursorMove room pos uid info) st).1 room sock =
    Some (mkCursor (Some pos) None None (Some uid) (Some info) (Some now)) ∧
  cursor_of (handle sock now (CursorVisibility room true uid info) st).1 room sock =
    Some (mkCursor None None (Some true) (Some uid) (Some info) (Some now)).
Proof.
  intros Hcur. simpl.
  assert (is_Some (roomCursors st !! room)) as Hroom.
  { unfold cursor_of in Hcur. destruct (roomCursors st !! room); [eauto|done]. }
  rewrite cursor_of_on_cursor_move, cursor_of_on_cursor_visibility.
  by rewrite !decide_True by done.
Qed.

Lemma cursor_update_replaces_object_witness :
  let st := (handle "Y" 13 (CursorSelection "r1" sel_3_5 "u2" info_u2)
               (run initial cursor_in_r1)).1 in
  cursor_of st "r1" "Y" =
    Some (mkCursor (Some pos_3_5) (Some sel_3_5) None (Some "u2") (Some info_u2) (Some 13)) ∧
  cursor_of (handle "Y" 14 (CursorMove "r1" pos_3_5 "u2" info_u2) st).1 "r1" "Y" =
    Some (mkCursor (Some pos_3_5) None None (Some "u2") (Some info_u2) (Some 14)).
Proof.
  assert (cursor_of (handle "Y" 13 (CursorSelection "r1" sel_3_5 "u2" info_u2)
                       (run initial cursor_in_r1)).1 "r1" "Y" =
    Some (mkCursor (Some pos_3_5) (Some sel_3_5) None (Some "u2") (Some info_u2) (Some 13)))
    as Hcur by (by vm_compute).
  split; [exact Hcur|].
  exact (proj1 (cursor_update_replaces_object _ "Y" "r1" 14 pos_3_5 "u2" info_u2 _ Hcur)).
Defined.

(** ** What an event leaves alone *)

Lemma handle_sockets_frame sock now m st :
  sockets (handle sock now m st).1 = sockets st.
Proof.
  destruct m; simpl; try done.
  - destruct (on_join_room_cases roomId isCreating st) as [[Hn ->]|Hok].
    { by rewrite on_join_room_rejected. }
    rewrite on_join_room_accepted by done. simpl.
    destruct (join_new_room_frame sock roomId (leave_previous_room sock st))
      as (_ & _ & -> & _).
    by destruct (leave_previous_room_frame sock st) as (_ & -> & _).
  - unfold on_check_room. by case_bool_decide.
  - unfold on_cursor_move. by destruct (roomCursors st !! roomId).
  - unfold on_cursor_selection. destruct (roomCursors st !! roomId) as [cm|]; [|done].
    by destruct (cm !! sock).
  - unfold on_cursor_visibility. destruct (roomCursors st !! roomId); [|done].
    by destruct visible.
Qed.

(** X11: an event of one socket ([connect], any message, [disconnect])
    changes nothing about another socket: its membership in every
    member set, its registry entry, its membership in every Socket.IO
    room and its being connected are as before.  No request can move or
    evict somebody else. *)
Theorem other_sockets_untouched (st : Server) (e : Event) (other room : string) :
  actor e ≠ other →
  (other ∈ members (step st e).1 room ↔ other ∈ members st room) ∧
  socketToRoom (step st e).1 !! other = socketToRoom st !! other ∧
  (other ∈ adapterRoom (step st e).1 room ↔ other ∈ adapterRoom st room) ∧
  (other ∈ sockets (step st e).1 ↔ other ∈ sockets st).
Proof.
  intros Hne. destruct e as [s|s now m|s]; simpl in *.
  - case_decide; simpl; [done|]. unfold transport_open.
    rewrite adapterRoom_socket_join. unfold members, adapterRoom. simpl.
    split; [done|]. split; [done|]. split; [case_decide|]; set_solver.
  - case_decide; simpl; [|done]. rewrite handle_sockets_frame.
    destruct (joined_room (Message s now m)) as [roomId|] eqn:Hj.
    + destruct m; try done. simpl in Hj. injection Hj as ->. simpl.
      destruct (on_join_room_cases roomId isCreating st) as [[Hn ->]|Hok].
      { by rewrite on_join_room_rejected. }
      rewrite on_join_room_accepted by done. simpl.
      destruct (join_new_room_frame s roomId (leave_previous_room s st)) as (-> & _).
      destruct (leave_previous_room_frame s st) as (-> & _).
      rewrite members_join_new_room, adapterRoom_join_new_room.
      rewrite !members_leave_previous_room, !adapterRoom_leave_previous_room.
      split; [repeat case_decide; set_solver|].
      split; [by rewrite lookup_insert_ne|].
      split; [repeat case_decide; set_solver|done].
    + destruct (handle_activeRooms_frame s now m st Hj) as (Ha & Hr & Had).
      unfold members, adapterRoom. by rewrite Ha, Hr, Had.
  - case_decide; simpl; [|done].
    assert (other ∈ adapterRoom (on_disconnect s (transport_close s st)).1 room ↔
            other ∈ adapterRoom st room) as Had.
    { unfold adapterRoom at 1. rewrite adapterRooms_on_disconnect.
      fold (adapterRoom (transport_close s st) room).
      rewrite adapterRoom_transport_close. set_solver. }
    assert (other ∈ sockets (on_disconnect s (transport_close s st)).1 ↔
            other ∈ sockets st) as Hso.
    { destruct (tracked_room s (transport_close s st)) as [prev|] eqn:Htr.
      - unfold on_disconnect. unfold tracked_room in Htr.
        destruct (socketToRoom (transport_close s st) !! s) as [p|]; [|done].
        destruct (truthy (Some p)); [|done]. simpl.
        destruct (remove_participant_frame s p (transport_close s st)) as (_ & _ & Hs & _).
        destruct (roomCursors _ !! p); simpl; rewrite Hs; simpl; set_solver.
      - rewrite on_disconnect_untracked by done. simpl. set_solver. }
    destruct (tracked_room s (transport_close s st)) as [prev|] eqn:Htr.
    + destruct (on_disconnect_tracked _ _ _ Htr) as (Ha & Hr & _).
      unfold members at 1. rewrite Ha, Hr.
      fold (members (remove_participant s prev (transport_close s st)) room).
      rewrite members_remove_participant. simpl.
      split; [unfold members; simpl; case_decide; set_solver|].
      split; [by rewrite lookup_delete_ne|]. done.
    + rewrite on_disconnect_untracked in * by done. done.
Qed.

Lemma other_sockets_untouched_witness :
  let st := run initial two_in_r1 in
  let st' := (step st (Message "Y" 12 (JoinRoom "r2" "u2" true))).1 in
  "X" ∈ members st' "r1" ∧ socketToRoom st' !! "X" = Some "r1".
Proof.
  assert ("Y" ≠ "X") as Hne by done.
  destruct (other_sockets_untouched (run initial two_in_r1)
              (Message "Y" 12 (JoinRoom "r2" "u2" true)) "X" "r1" Hne) as (Hm & Hr & _).
  split; [apply Hm; by vm_compute|]. rewrite Hr. by vm_compute.
Defined.

(** X12: a message other than [join-room] never changes [activeRooms],
    [socketToRoom] or the Socket.IO rooms; it changes no cursor object
    but the sender's own in the room it names; and unless it is one of
    the three cursor messages it leaves the whole state as it was. *)
Theorem relay_messages_keep_state (st : Server) (sock : string) (now : Z) (m : Msg) :
  joined_room (Message sock now m) = None →
  let st' := (handle sock now m st).1 in
  activeRooms st' = activeRooms st ∧
  socketToRoom st' = socketToRoom st ∧
  adapterRooms st' = adapterRooms st ∧
  (∀ room' sock', ¬ (fanout_room m = Some room' ∧ sock' = sock) →
     cursor_of st' room' sock' = cursor_of st room' sock') ∧
  (inbound_name m ∉ ["cursor-move"; "cursor-selection"; "cursor-visibility"] → st' = st).
Proof.
  intros Hj st'. destruct (handle_activeRooms_frame sock now m st Hj) as (Ha & Hr & Had).
  split; [done|]. split; [done|]. split; [done|]. unfold st'. split.
  - intros room' sock' Hother. destruct m; simpl in *; try done.
    + unfold on_check_room. by case_bool_decide.
    + rewrite cursor_of_on_cursor_move. case_decide; [|done]. naive_solver.
    + rewrite cursor_of_on_cursor_selection. case_decide; [|done]. naive_solver.
    + rewrite cursor_of_on_cursor_visibility. case_decide; [|done]. naive_solver.
  - intros Hname. destruct m; simpl in *; try done.
    + unfold on_check_room. by case_bool_decide.
    + exfalso. apply Hname. set_solver.
    + exfalso. apply Hname. set_solver.
    + exfalso. apply Hname. set_solver.
Qed.

Lemma relay_messages_keep_state_witness :
  let st := run initial cursor_in_r1 in
  (handle "X" 13 (RunCode "r1" "42" "python" "" "print(42)") st).1 = st ∧
  cursor_of (handle "X" 13 (CursorVisibility "r1" false "u1" info_u2) st).1 "r1" "Y" =
    cursor_of st "r1" "Y".
Proof.
  destruct (relay_messages_keep_state (run initial cursor_in_r1) "X" 13
              (RunCode "r1" "42" "python" "" "print(42)") eq_refl) as (_ & _ & _ & _ & Hsame).
  destruct (relay_messages_keep_state (run initial cursor_in_r1) "X" 13
              (CursorVisibility "r1" false "u1" info_u2) eq_refl) as (_ & _ & _ & Hcur & _).
  split.
  - apply Hsame. simpl. intros Hin.
    repeat (apply elem_of_cons in Hin as [Hin|Hin]; [discriminate Hin|]).
    by apply elem_of_nil in Hin.
  - apply Hcur. intros [_ Heq]. discriminate Heq.
Defined.

(** ** The first server *)

Lemma basic_step_keeps_room st e sock room :
  e ≠ Basic.Disconnect sock →
  sock ∈ adapterRoom st room → sock ∈ adapterRoom (Basic.step st e).1 room.
Proof.
  intros Hne Hin. destruct e as [s|s m|s]; simpl; case_decide; simpl; try done.
  - unfold transport_open. rewrite adapterRoom_socket_join.
    case_decide; subst; [apply elem_of_union_r|]; exact Hin.
  - destruct m; simpl; try done. rewrite adapterRoom_socket_join.
    case_decide; subst; [apply elem_of_union_r|]; exact Hin.
  - rewrite adapterRoom_transport_close. apply elem_of_difference. split; [done|].
    intros ->%elem_of_singleton. by apply Hne.
Qed.

(** X13: in the first server a socket never leaves a room except by
    disconnecting: whatever happens in between (joins of further rooms
    included), a socket that is in a room and has not disconnected is
    still in it.  It then receives [language-changed] for that room
    from every sender, itself included ([io.to]), and it receives
    [receive-message] for that room from a sender exactly when it is
    not in the Socket.IO room named by the sender's id, the room
    [socket.to] excludes; a sender that is in the room of its own id
    does not receive its own message. *)
Theorem first_server_rooms_accumulate (st : Server) (evs : list Basic.Event)
    (sock room sender message language : string) :
  sock ∈ adapterRoom st room →
  Forall (λ e, e ≠ Basic.Disconnect sock) evs →
  let st' := Basic.run st evs in
  sock ∈ adapterRoom st' room ∧
  delivered sock (Basic.handle sender (Basic.ChangeLanguage room language) st').2 =
    [("language-changed", VStr language)] ∧
  (sock ∉ adapterRoom st' sender →
     delivered sock (Basic.handle sender (Basic.SendMessage room message) st').2 =
       [("receive-message", VStr message)]) ∧
  (sock ∈ adapterRoom st' sender →
     delivered sock (Basic.handle sender (Basic.SendMessage room message) st').2 = []) ∧
  (sender ∈ adapterRoom st' sender →
     delivered sender (Basic.handle sender (Basic.SendMessage room message) st').2 = []).
Proof.
  intros Hin Hevs st'.
  assert (sock ∈ adapterRoom st' room) as Hin'.
  { unfold st'. clear st'. revert st Hin.
    induction Hevs as [|e evs He Hevs IH]; intros st Hin; simpl; [done|].
    by apply IH, basic_step_keeps_room. }
  split; [done|]. simpl. unfold Basic.io_to_emit, socket_to_emit.
  rewrite !delivered_single. cbn [recipients event payload].
  split; [by rewrite decide_True|]. split; [|split].
  - intros Hout. rewrite decide_True; [done|]. set_solver.
  - intros Hexcl. rewrite decide_False; [done|]. set_solver.
  - intros Hown. rewrite decide_False; [done|]. set_solver.
Qed.

Lemma first_server_rooms_accumulate_witness :
  let st := Basic.run initial [ Basic.Connect "X"; Basic.Connect "Y";
                                Basic.Message "Y" (Basic.JoinRoom "r1" "u2") ] in
  let st' := Basic.run st [ Basic.Message "Y" (Basic.JoinRoom "r2" "u2");
                            Basic.Message "X" (Basic.JoinRoom "r1" "u1") ] in
  "Y" ∈ adapterRoom st "r1" ∧
  "Y" ∈ adapterRoom st' "r1" ∧ "Y" ∈ adapterRoom st' "r2" ∧
  ("Y" ∉ adapterRoom st' "X") ∧
  delivered "Y" (Basic.handle "Y" (Basic.ChangeLanguage "r1" "python") st').2 =
    [("language-changed", VStr "python")] ∧
  delivered "Y" (Basic.handle "X" (Basic.SendMessage "r1" "hello") st').2 =
    [("receive-message", VStr "hello")].
Proof.
  assert ("Y" ∈ adapterRoom (Basic.run initial [ Basic.Connect "X"; Basic.Connect "Y";
            Basic.Message "Y" (Basic.JoinRoom "r1" "u2") ]) "r1") as Hin by (by vm_compute).
  assert (Forall (λ e, e ≠ Basic.Disconnect "Y")
            [ Basic.Message "Y" (Basic.JoinRoom "r2" "u2");
              Basic.Message "X" (Basic.JoinRoom "r1" "u1") ]) as Hevs
    by (by repeat constructor).
  destruct (first_server_rooms_accumulate _ _ "Y" "r1" "Y" "hello" "python" Hin Hevs)
    as (Hstill & Hlang & _).
  destruct (first_server_rooms_accumulate _ _ "Y" "r1" "X" "hello" "python" Hin Hevs)
    as (_ & _ & Hmsg & _).
  assert ("Y" ∉ adapterRoom (Basic.run (Basic.run initial [ Basic.Connect "X";
            Basic.Connect "Y"; Basic.Message "Y" (Basic.JoinRoom "r1" "u2") ])
            [ Basic.Message "Y" (Basic.JoinRoom "r2" "u2");
              Basic.Message "X" (Basic.JoinRoom "r1" "u1") ]) "X") as Hout.
  { intros Hy. apply (bool_decide_pack _) in Hy. vm_compute in Hy. exact Hy. }
  split; [exact Hin|]. split; [exact Hstill|]. split; [by vm_compute|].
  split; [exact Hout|]. split; [exact Hlang|]. exact (Hmsg Hout).
Defined.

(** ** Departure of the last member *)

(** X15: when a connected socket is the only member of the room its
    registry entry names, and that room id is not the empty string, the
    room entry and its cursor map are deleted by the very event with
    which the socket departs: its disconnect, which also clears the
    registry entry, or its accepted [join-room] request for another
    room, which moves the registry entry to that room. *)
Theorem last_member_departure_deletes_room (st : Server) (sock room : string) :
  socketToRoom st !! sock = Some room → room ≠ "" →
  members st room = {[sock]} → sock ∈ sockets st →
  (let st' := (step st (Disconnect sock)).1 in
   activeRooms st' !! room = None ∧ roomCursors st' !! room = None ∧
   socketToRoom st' !! sock = None) ∧
  (∀ now roomId uid isCreating,
     roomId ≠ room →
     (is_Some (activeRooms st !! roomId) ∨ isCreating = true) →
     let st' := (step st (Message sock now (JoinRoom roomId uid isCreating))).1 in
     activeRooms st' !! room = None ∧ roomCursors st' !! room = None ∧
     socketToRoom st' !! sock = Some roomId).
Proof.
  intros Hreg Hne Hsole Hlive.
  assert (activeRooms st !! room = Some {[sock]}) as Hs.
  { unfold members in Hsole. destruct (activeRooms st !! room) as [s|]; simpl in Hsole.
    - by rewrite Hsole.
    - exfalso. assert (sock ∈ (∅ : gset string)) as Hin; [|set_solver].
      rewrite Hsole. set_solver. }
  assert (({[sock]} : gset string) ∖ {[sock]} = ∅) as Hempty by set_solver.
  assert (drop_from sock {[sock]} = None) as Hdrop.
  { unfold drop_from. by rewrite decide_True. }
  split.
  - simpl. rewrite decide_True by done.
    assert (tracked_room sock (transport_close sock st) = Some room) as Htr.
    { by apply tracked_room_Some. }
    destruct (on_disconnect_tracked _ _ _ Htr) as (Ha & Hr & Hc & _).
    assert (roomCursors (remove_participant sock room (transport_close sock st)) !! room
            = None) as Hgone.
    { rewrite roomCursors_remove_participant, decide_True; [done|].
      unfold members. simpl. rewrite Hs. simpl. split; [done|]. split; [eauto|done]. }
    split; [|split].
    + rewrite Ha, activeRooms_remove_participant, lookup_partial_alter_eq. simpl.
      by rewrite Hs.
    + by rewrite Hc, Hgone.
    + rewrite Hr. simpl. apply lookup_delete_eq.
  - intros now roomId uid isCreating Hother Hok. simpl. rewrite decide_True by done.
    rewrite on_join_room_accepted by done. simpl.
    assert (tracked_room sock st = Some room) as Htr by (by apply tracked_room_Some).
    destruct (join_new_room_frame sock roomId (leave_previous_room sock st)) as (-> & _).
    split; [|split].
    + rewrite activeRooms_join_new_room, lookup_insert_ne by done.
      rewrite activeRooms_leave_previous_room, Htr, lookup_partial_alter_eq.
      by rewrite Hs.
    + rewrite roomCursors_join_new_room, lookup_insert_ne by done.
      rewrite roomCursors_leave_previous_room, decide_True; [done|].
      rewrite Hsole. split; [done|]. split; [eauto|done].
    + by rewrite lookup_insert_eq.
Qed.

Lemma last_member_departure_deletes_room_witness :
  let st := run initial [Connect "X"; Message "X" 10 (JoinRoom "r1" "u1" true)] in
  socketToRoom st !! "X" = Some "r1" ∧ members st "r1" = {["X"]} ∧ "X" ∈ sockets st ∧
  activeRooms (step st (Disconnect "X")).1 !! "r1" = None ∧
  roomCursors (step st (Message "X" 11 (JoinRoom "r2" "u1" true))).1 !! "r1" = None.
Proof.
  assert (socketToRoom (run initial [Connect "X"; Message "X" 10 (JoinRoom "r1" "u1" true)])
            !! "X" = Some "r1") as Hreg by (by vm_compute).
  assert (members (run initial [Connect "X"; Message "X" 10 (JoinRoom "r1" "u1" true)]) "r1"
          = {["X"]}) as Hsole by (by vm_compute).
  assert ("X" ∈ sockets (run initial [Connect "X"; Message "X" 10 (JoinRoom "r1" "u1" true)]))
    as Hlive by (by vm_compute).
  assert ("r1" ≠ "") as Hne by done.
  destruct (last_member_departure_deletes_room _ "X" "r1" Hreg Hne Hsole Hlive)
    as ((Hgone & _) & Hswitch).
  assert ("r2" ≠ "r1") as Hother by done.
  destruct (Hswitch 11 "r2" "u1" true Hother (or_intror eq_refl)) as (_ & Hcur & _).
  split; [exact Hreg|]. split; [exact Hsole|]. split; [exact Hlive|].
  split; [exact Hgone|exact Hcur].
Defined.

(** ** Fan-out when room ids and socket ids are kept apart *)

Lemma ids_apart_initial ids : ids_apart ids initial.
Proof.
  split; unfold adapterRoom; simpl.
  - set_solver.
  - intros sock x _. rewrite lookup_empty. simpl. set_solver.
  - set_solver.
  - intros sock room. by rewrite lookup_empty.
Qed.

Lemma ids_apart_step ids st e :
  keeps_ids_apart ids e → ids_apart ids st → ids_apart ids (step st e).1.
Proof.
  intros He [H1 H2 H3 H4]. destruct e as [s|s now m|s]; simpl in *.
  - case_decide; simpl; [done|]. unfold transport_open. split; simpl.
    + set_solver.
    + intros sock x Hsock. rewrite adapterRoom_socket_join. unfold adapterRoom at 1 2. simpl.
      fold (adapterRoom st s) (adapterRoom st sock).
      case_decide; subst; [|by apply H2].
      intros [->%elem_of_singleton|Hx]%elem_of_union; [done|by apply H2].
    + intros sock. rewrite adapterRoom_socket_join. unfold adapterRoom at 1 2. simpl.
      fold (adapterRoom st s) (adapterRoom st sock).
      intros [->%elem_of_singleton|Hs]%elem_of_union.
      * rewrite decide_True by done. set_solver.
      * case_decide; subst; [apply elem_of_union_r|]; by apply H3.
    + done.
  - case_decide; simpl; [|done].
    destruct (joined_room (Message s now m)) as [roomId|] eqn:Hj.
    + destruct m; try done. simpl in Hj. injection Hj as ->. simpl in *.
      destruct (on_join_room_cases roomId isCreating st) as [[Hn ->]|Hok].
      { by rewrite on_join_room_rejected. }
      rewrite on_join_room_accepted by done. simpl.
      destruct (join_new_room_frame s roomId (leave_previous_room s st))
        as (Hreg & _ & Hso & _).
      destruct (leave_previous_room_frame s st) as (Hreg1 & Hso1 & _).
      assert (∀ sock, sock ∈ ids →
                adapterRoom (join_new_room s roomId (leave_previous_room s st)) sock
                = adapterRoom st sock) as Hsame.
      { intros sock Hsock. rewrite adapterRoom_join_new_room, decide_False by set_solver.
        rewrite adapterRoom_leave_previous_room, decide_False; [done|].
        intros [Hprev _]%tracked_room_Some. by apply H4 in Hprev. }
      split.
      * by rewrite Hso, Hso1.
      * intros sock x Hsock. rewrite Hsame by done. by apply H2.
      * intros sock. rewrite Hso, Hso1. intros Hs. rewrite Hsame by set_solver.
        by apply H3.
      * intros sock room. rewrite Hreg, Hreg1.
        destruct (decide (sock = s)) as [->|Hne].
        -- rewrite lookup_insert_eq. by intros [= <-].
        -- rewrite lookup_insert_ne by done. apply H4.
    + destruct (handle_activeRooms_frame s now m st Hj) as (_ & Hr & Had).
      split.
      * by rewrite handle_sockets_frame.
      * intros sock x. unfold adapterRoom. rewrite Had. apply H2.
      * intros sock. rewrite handle_sockets_frame. unfold adapterRoom. rewrite Had.
        apply H3.
      * intros sock room. rewrite Hr. apply H4.
  - case_decide; simpl; [|done].
    assert (sockets (on_disconnect s (transport_close s st)).1 = sockets st ∖ {[s]}) as Hso.
    { unfold on_disconnect.
      destruct (socketToRoom (transport_close s st) !! s) as [p|]; [|done].
      destruct (truthy (Some p)); [|done]. simpl.
      destruct (remove_participant_frame s p (transport_close s st)) as (_ & _ & Hs & _).
      destruct (roomCursors _ !! p); simpl; by rewrite Hs. }
    assert (∀ room, adapterRoom (on_disconnect s (transport_close s st)).1 room
                    = adapterRoom st room ∖ {[s]}) as Had.
    { intros room. unfold adapterRoom at 1. rewrite adapterRooms_on_disconnect.
      fold (adapterRoom (transport_close s st) room). apply adapterRoom_transport_close. }
    split.
    + rewrite Hso. set_solver.
    + intros sock x Hsock. rewrite Had. intros [Hx _]%elem_of_difference. by apply H2.
    + intros sock. rewrite Hso, Had. intros [Hs Hne]%elem_of_difference.
      apply elem_of_difference. split; [by apply H3|done].
    + intros sock room.
      destruct (tracked_room s (transport_close s st)) as [prev|] eqn:Htr.
      * destruct (on_disconnect_tracked _ _ _ Htr) as (_ & -> & _). simpl.
        destruct (decide (sock = s)) as [->|Hne]; [by rewrite lookup_delete_eq|].
        rewrite lookup_delete_ne by done. apply H4.
      * rewrite on_disconnect_untracked by done. apply H4.
Qed.

Lemma ids_apart_run ids evs :
  Forall (keeps_ids_apart ids) evs → ids_apart ids (run initial evs).
Proof.
  assert (∀ st, Forall (keeps_ids_apart ids) evs → ids_apart ids st →
                ids_apart ids (run st evs)) as Hgen.
  { induction evs as [|e evs IH]; intros st Hevs Hst; simpl; [done|].
    inversion Hevs; subst. by apply IH, ids_apart_step. }
  intros Hevs. apply Hgen; [done|apply ids_apart_initial].
Qed.

Lemma id_room_alone ids st sock :
  ids_apart ids st → sock ∈ sockets st → adapterRoom st sock = {[sock]}.
Proof.
  intros [H1 H2 H3 H4] Hs. apply set_eq. intros x. rewrite elem_of_singleton. split.
  - apply H2. set_solver.
  - intros ->. by apply H3.
Qed.

(** X16: on the histories that keep room ids and socket ids apart (no
    [join-room] request names a room id that is the id of a socket of
    the history), a fan-out message of a connected socket naming room
    [room] is delivered exactly once, under the outbound name
    ([language-changed] for [change-language], [code-run] for
    [run-code], the inbound name otherwise), to every other connected
    member of [room]; nothing is delivered to the sender; and any event
    emitted carries that name and goes to the Socket.IO room [room] less
    the sender. *)
Theorem fanout_when_ids_apart (ids : gset string) (evs : list Event) (sock : string)
    (now : Z) (m : Msg) (room other : string) :
  Forall (keeps_ids_apart ids) evs →
  let st := run initial evs in
  let out := (handle sock now m st).2 in
  sock ∈ sockets st →
  fanout_room m = Some room →
  (other ∈ members st room → other ∈ sockets st → other ≠ sock →
     ∃ data, delivered other out = [(renamed (inbound_name m), data)]) ∧
  delivered sock out = [] ∧
  (∀ em, em ∈ out →
     event em = renamed (inbound_name m) ∧
     recipients em = adapterRoom st room ∖ {[sock]}).
Proof.
  intros Hevs st out Hsock Hm.
  pose proof (reachable_consistent evs) as Hst. fold st in Hst.
  pose proof (id_room_alone ids st sock (ids_apart_run ids evs Hevs) Hsock) as Hown.
  split; [|split].
  - intros Hmem Hlive Hne.
    assert (is_Some (roomCursors st !! room)) as Hroom.
    { apply (cursors_follow _ Hst). unfold members in Hmem.
      destruct (activeRooms st !! room); [eauto|set_solver]. }
    destruct (fanout_emits_one sock now m room st Hm Hroom) as [data Hout].
    exists data. unfold out. rewrite Hout, delivered_single. cbn [recipients event payload].
    rewrite Hown. rewrite decide_True; [done|].
    apply elem_of_difference. split; [by apply (live_members _ Hst)|].
    by intros ?%elem_of_singleton.
  - unfold out. destruct (fanout_emits sock now m room st Hm) as [->|[data ->]]; [done|].
    rewrite delivered_single. cbn [recipients event payload].
    rewrite Hown. rewrite decide_False; [done|]. set_solver.
  - intros em. unfold out.
    destruct (fanout_emits sock now m room st Hm) as [->|[data ->]].
    + by intros ?%elem_of_nil.
    + intros ->%list_elem_of_singleton. cbn [recipients event]. by rewrite Hown.
Qed.

Lemma fanout_when_ids_apart_witness :
  let st := run initial two_in_r1 in
  Forall (keeps_ids_apart {["X"; "Y"]}) two_in_r1 ∧
  "Y" ∈ sockets st ∧ "X" ∈ members st "r1" ∧ "X" ∈ sockets st ∧
  (∃ data, delivered "X" (handle "Y" 12 (ChangeLanguage "r1" "python") st).2 =
           [("language-changed", data)]) ∧
  (∃ data, delivered "X" (handle "Y" 12 (CursorMove "r1" pos_3_5 "u2" info_u2) st).2 =
           [("cursor-move", data)]) ∧
  delivered "Y" (handle "Y" 12 (RunCode "r1" "42" "python" "" "print(42)") st).2 = [].
Proof.
  assert (Forall (keeps_ids_apart {["X"; "Y"]}) two_in_r1) as Hevs.
  { repeat constructor; simpl; set_solver. }
  assert ("Y" ∈ sockets (run initial two_in_r1)) as Hsender by (by vm_compute).
  assert ("X" ∈ members (run initial two_in_r1) "r1") as Hmem by (by vm_compute).
  assert ("X" ∈ sockets (run initial two_in_r1)) as Hlive by (by vm_compute).
  assert ("X" ≠ "Y") as Hne by done.
  split; [exact Hevs|]. split; [exact Hsender|]. split; [exact Hmem|].
  split; [exact Hlive|]. split; [|split].
  - exact (proj1 (fanout_when_ids_apart _ two_in_r1 "Y" 12
                    (ChangeLanguage "r1" "python") "r1" "X" Hevs Hsender eq_refl)
             Hmem Hlive Hne).
  - exact (proj1 (fanout_when_ids_apart _ two_in_r1 "Y" 12
                    (CursorMove "r1" pos_3_5 "u2" info_u2) "r1" "X" Hevs Hsender eq_refl)
             Hmem Hlive Hne).
  - exact (proj1 (proj2 (fanout_when_ids_apart _ two_in_r1 "Y" 12
                    (RunCode "r1" "42" "python" "" "print(42)") "r1" "X" Hevs Hsender
                    eq_refl))).
Defined.

(** X17: a [cursor-move], [cursor-selection] or [cursor-visibility]
    event naming a room without a cursor map changes nothing and emits
    nothing; and after any history a [cursor-selection] event naming a
    room that is a key of [activeRooms], from a socket without a cursor
    object there, changes nothing and still emits the one
    [cursor-selection] event through [socket.to]: the store update that
    is dropped does not hold back the broadcast. *)
Theorem cursor_events_need_a_cursor_map (evs : list Event) (st0 : Server)
    (sock room : string) (now : Z) (pos sel : Value) (visible : bool)
    (uid : string) (info : Value) :
  let st := run initial evs in
  (roomCursors st0 !! room = None →
     handle sock now (CursorMove room pos uid info) st0 = (st0, []) ∧
     handle sock now (CursorSelection room sel uid info) st0 = (st0, []) ∧
     handle sock now (CursorVisibility room visible uid info) st0 = (st0, [])) ∧
  (is_Some (activeRooms st !! room) → cursor_of st room sock = None →
     handle sock now (CursorSelection room sel uid info) st =
       (st, [mkEmit (adapterRoom st room ∖ adapterRoom st sock) "cursor-selection"
               (VObj [("socketId", VStr sock); ("selection", sel);
                      ("userId", VStr uid); ("userInfo", info)])])).
Proof.
  intros st. pose proof (reachable_consistent evs) as Hst. fold st in Hst. split.
  - intros Hno. simpl. unfold on_cursor_move, on_cursor_selection, on_cursor_visibility.
    by rewrite Hno.
  - intros Hroom Hnone. apply (cursors_follow _ Hst) in Hroom as [cm Hcm].
    simpl. unfold on_cursor_selection. rewrite Hcm.
    rewrite (cursor_of_map _ _ _ _ Hcm) in Hnone. by rewrite Hnone.
Qed.

Lemma cursor_events_need_a_cursor_map_witness :
  let st := run initial two_in_r1 in
  is_Some (activeRooms st !! "r1") ∧ cursor_of st "r1" "Y" = None ∧
  roomCursors st !! "r2" = None ∧
  (handle "Y" 12 (CursorSelection "r1" sel_3_5 "u2" info_u2) st).2 =
    [mkEmit {["X"]} "cursor-selection"
       (VObj [("socketId", VStr "Y"); ("selection", sel_3_5);
              ("userId", VStr "u2"); ("userInfo", info_u2)])] ∧
  handle "Y" 12 (CursorMove "r2" pos_3_5 "u2" info_u2) st = (st, []).
Proof.
  destruct (cursor_events_need_a_cursor_map two_in_r1 (run initial two_in_r1)
              "Y" "r1" 12 pos_3_5 sel_3_5 true "u2" info_u2) as (_ & Hsel).
  destruct (cursor_events_need_a_cursor_map two_in_r1 (run initial two_in_r1)
              "Y" "r2" 12 pos_3_5 sel_3_5 true "u2" info_u2) as (Hno & _).
  assert (is_Some (activeRooms (run initial two_in_r1) !! "r1")) as Hroom
    by (by vm_compute; eauto).
  assert (cursor_of (run initial two_in_r1) "r1" "Y" = None) as Hnone by (by vm_compute).
  assert (roomCursors (run initial two_in_r1) !! "r2" = None) as Hr2 by (by vm_compute).
  split; [done|]. split; [done|]. split; [done|]. split.
  - rewrite (Hsel Hroom Hnone). by vm_compute.
  - exact (proj1 (Hno Hr2)).
Defined.
